(** * PyDDM [ddm/sample.py]: the [Sample] container, embedded and verified

    The module is a single class, [Sample], with a helper iterator class
    [_Sample_Iter_Wraper].  The embedding below follows the Python text
    method by method:

    - Python exceptions are values of [exn]; a computation that may raise
      has type [result A].
    - A one-dimensional sequence of numbers is either a numpy array (which
      carries a [writeable] flag) or a plain Python list (which has none).
      Numbers are rationals [Q], every double being one; [==] on numbers
      is [Qeq_bool].  Where Python computes a quotient or a sum of
      scalars in double precision, the result is rounded to the nearest
      double by [round_double].
    - A dictionary with string keys ([**kwargs], [self.conditions]) is a
      [gmap string _].
    - The module is written against the Python 2 protocols: the iterator
      method is [next], and [map(f, xs)] is a list.  *)

From Stdlib Require Import QArith Qround Qpower Qabs Lqa.
From stdpp Require Import gmap strings list fin_maps sorting.

Local Open Scope Z_scope.

(** ** Exceptions and fallible computations *)

Inductive exn : Set :=
  | AssertionError
  | AttributeError
  | IndexError
  | KeyError
  | ValueError
  | ZeroDivisionError
  | StopIteration
  (* raised by the decorators of the [paranoid] package *)
  | ArgumentTypeError
  | ReturnTypeError
  | EntryConditionsError
  | ExitConditionsError.

Inductive result (A : Type) : Type :=
  | Ok (a : A)
  | Raise (e : exn).
Arguments Ok {A} a.
Arguments Raise {A} e.

#[global] Instance result_ret : MRet result := λ A a, Ok a.
#[global] Instance result_bind : MBind result := λ A B f m,
  match m with
  | Ok a => f a
  | Raise e => Raise e
  end.
#[global] Instance result_fmap : FMap result := λ A B f m,
  match m with
  | Ok a => Ok (f a)
  | Raise e => Raise e
  end.

(** [assert b] *)
Definition py_assert (b : bool) : result unit :=
  if b then Ok tt else Raise AssertionError.

Definition is_Ok {A} (r : result A) : Prop := ∃ a, r = Ok a.

(** Build a dictionary entry by entry, where computing an entry may raise:
    the shape of [for k, v in d.items(): ...] and of a dict comprehension. *)
Definition dict_mapM {A B} (f : string → A → result B) (d : gmap string A)
    : result (gmap string B) :=
  map_fold (λ k v acc, acc ← acc; v' ← f k v; Ok (<[k:=v']> acc)) (Ok ∅) d.

(** ** Numbers: double precision *)

(** Rounding to the nearest whole number, ties to the even one.  This is
    [np.round], and the rounding of the significand of a double. *)
Definition np_round (x : Q) : Z :=
  let f := Qfloor x in
  match (x - inject_Z f ?= 1 # 2)%Q with
  | Lt => f
  | Gt => f + 1
  | Eq => if Z.even f then f else f + 1
  end.

(** 2 to the power [e] *)
Definition pow2 (e : Z) : Q := (2 ^ e)%Q.

(** [floor(log2 x)] for a positive [x] *)
Definition ilog2 (x : Q) : Z :=
  let k := Z.log2 (Qnum x) - Z.log2 (Z.pos (Qden x)) in
  if Qle_bool (pow2 k) x then k else k - 1.

(** The spacing of the doubles around [x]: 53 significant bits, and the
    fixed spacing of the subnormal numbers below [2 ^ -1022]. *)
Definition ulp (x : Q) : Q := pow2 (Z.max (ilog2 (Qabs x)) (-1022) - 52).

(** The double nearest to [x], ties to the even one: the value of an
    IEEE 754 operation whose exact result is [x].  A result beyond the
    range of the doubles (Python's [inf]) stays a number of that
    size. *)
Definition round_double (x : Q) : Q :=
  (inject_Z (np_round (x / ulp x)) * ulp x)%Q.

(** [a + b] on two entries of numpy arrays: the double nearest to the
    sum.  Whole numbers add exactly as long as the sum is below
    [2 ^ 53] in size, as they do in an array of integers. *)
Definition np_add (a b : Q) : Q := round_double (a + b).

(** ** Sequences of numbers: numpy arrays and Python lists *)

Inductive pyseq : Type :=
  | ndarray (writeable : bool) (items : list Q)
  | pylist (items : list Q).

Definition data (a : pyseq) : list Q :=
  match a with
  | ndarray _ l => l
  | pylist l => l
  end.

(** [len(a)] *)
Definition len (a : pyseq) : nat := length (data a).

(** [np.asarray(l)] on a list: a fresh, writeable array. *)
Definition np_asarray (l : list Q) : pyseq := ndarray true l.

(** [a in NDArray(d=1, t=Number)].  The type comes from the [paranoid]
    package, which is not part of this module: its test is
    [isinstance(a, np.ndarray)] plus the dimension and element type, and
    the latter two hold of every [pyseq]. *)
Definition in_NDArray (a : pyseq) : bool :=
  match a with
  | ndarray _ _ => true
  | pylist _ => false
  end.

(** [a.flags.writeable = False]: lists have no attribute [flags]. *)
Definition set_readonly (a : pyseq) : result pyseq :=
  match a with
  | ndarray _ l => Ok (ndarray false l)
  | pylist _ => Raise AttributeError
  end.

Definition readonly (a : pyseq) : bool :=
  match a with
  | ndarray w _ => negb w
  | pylist _ => false
  end.

(** [a[i] = x], the in-place mutation that a read-only array refuses
    (numpy: "assignment destination is read-only"). *)
Definition setitem (a : pyseq) (i : nat) (x : Q) : result pyseq :=
  match a with
  | ndarray w l =>
      if w then
        if decide (i < length l)%nat then Ok (ndarray w (<[i:=x]> l))
        else Raise IndexError
      else Raise ValueError
  | pylist l =>
      if decide (i < length l)%nat then Ok (pylist (<[i:=x]> l))
      else Raise IndexError
  end.

(** [a[i]] for [i >= 0]. *)
Definition getitem {A} (l : list A) (i : nat) : result A :=
  match l !! i with
  | Some x => Ok x
  | None => Raise IndexError
  end.

(** numpy's binary operators on one-dimensional operands: element by
    element when the lengths agree, a length-one operand is stretched,
    anything else "could not be broadcast together". *)
Definition np_broadcast {A B C} (f : A → B → C) (a : list A) (b : list B)
    : result (list C) :=
  if decide (length a = length b) then Ok (zip_with f a b)
  else match a, b with
       | [x], _ => Ok (map (f x) b)
       | _, [y] => Ok (map (λ x, f x y) a)
       | _, _ => Raise ValueError
       end.

(** [a + b]: list concatenation when both are lists, numpy addition as
    soon as one operand is an array. *)
Definition py_add (a b : pyseq) : result pyseq :=
  match a, b with
  | pylist la, pylist lb => Ok (pylist (la ++ lb))
  | _, _ => np_asarray <$> np_broadcast np_add (data a) (data b)
  end.

(** [np.logical_and(m, l)] *)
Definition np_logical_and (m l : list bool) : result (list bool) :=
  np_broadcast andb m l.

(** [itertools.compress(d, selectors)] *)
Fixpoint compress {A} (d : list A) (selectors : list bool) : list A :=
  match d, selectors with
  | x :: d', b :: s' => if b then x :: compress d' s' else compress d' s'
  | _, _ => []
  end.

(** ** The class [Sample] *)

(** A condition is a tuple of two or three sequences. *)
Record cond : Type := {
  c0 : pyseq;
  c1 : pyseq;
  c2 : option pyseq
}.

Record Sample : Type := {
  corr : pyseq;
  err : pyseq;
  non_decision : Z;
  conditions : gmap string cond
}.

(** The body of the loop of [__init__] for one keyword argument. *)
Definition check_condition (ncorr nerr : nat) (non_decision : Z) (v : cond)
    : result cond :=
  _ ← py_assert (in_NDArray (c0 v));
  _ ← py_assert (in_NDArray (c1 v));
  _ ← py_assert (bool_decide (len (c0 v) = ncorr));
  _ ← py_assert (bool_decide (len (c1 v) = nerr));
  v0 ← set_readonly (c0 v);
  v1 ← set_readonly (c1 v);
  _ ← match c2 v with
      | Some t => py_assert (bool_decide (Z.of_nat (len t) = non_decision))
      | None => py_assert (bool_decide (non_decision = 0))
      end;
  Ok {| c0 := v0; c1 := v1; c2 := c2 v |}.

(** [Sample.__init__(sample_corr, sample_err, non_decision, **kwargs)] *)
Definition Sample_init (sample_corr sample_err : pyseq) (non_decision : Z)
    (kwargs : gmap string cond) : result Sample :=
  _ ← py_assert (in_NDArray sample_corr);
  _ ← py_assert (in_NDArray sample_err);
  _ ← py_assert (bool_decide (0 ≤ non_decision));
  corr ← set_readonly sample_corr;
  err ← set_readonly sample_err;
  conds ← dict_mapM (λ _, check_condition (len corr) (len err) non_decision)
                    kwargs;
  Ok {| corr := corr; err := err; non_decision := non_decision;
        conditions := conds |}.

(** [Sample.__len__] *)
Definition Sample_len (self : Sample) : Z :=
  Z.of_nat (len (corr self)) + Z.of_nat (len (err self)) + non_decision self.

(** [d[k]] on a dictionary *)
Definition lookup_key {A} (d : gmap string A) (k : string) : result A :=
  match d !! k with
  | Some v => Ok v
  | None => Raise KeyError
  end.

(** [list(d.keys())], in the order of the model's dictionary.  Python
    lists the keys in insertion order; where the order could matter, in
    the comparison of [__add__], the two listings are arguments of the
    model ([Sample_add_listed]).  Everywhere else only the length of the
    list or membership in it is used. *)
Definition keys {A} (d : gmap string A) : list string := (map_to_list d).*1.

Definition string_le (a b : string) : Prop := String.leb a b = true.
#[global] Instance string_le_dec a b : Decision (string_le a b) :=
  decide (String.leb a b = true).

(** [sorted(l)] on names *)
Definition sorted_names (l : list string) : list string :=
  merge_sort string_le l.

(** [sorted(d.keys())] *)
Definition sorted_keys {A} (d : gmap string A) : list string :=
  merge_sort string_le (keys d).

(** [sc[k][2] if len(sc[k]) == 3 else []] *)
Definition third_or_empty (v : cond) : pyseq :=
  match c2 v with
  | Some t => t
  | None => pylist []
  end.

(** The tuple assigned to [conditions[k]] in [__add__]. *)
Definition add_condition (oc : gmap string cond) (k : string) (sck : cond)
    : result cond :=
  ock ← lookup_key oc k;
  a0 ← py_add (c0 sck) (c0 ock);
  a1 ← py_add (c1 sck) (c1 ock);
  a2 ← py_add (third_or_empty sck) (third_or_empty ock);
  Ok {| c0 := a0; c1 := a1; c2 := Some a2 |}.

(** [Sample.__add__], given the lists [ks] and [ko] that
    [self.conditions.keys()] and [other.conditions.keys()] produce, in
    whatever order the two dictionaries hold their keys. *)
Definition Sample_add_listed (ks ko : list string) (self other : Sample)
    : result Sample :=
  _ ← py_assert (bool_decide (sorted_names ks = sorted_names ko));
  corr ← py_add (corr self) (corr other);
  err ← py_add (err self) (err other);
  let non_decision := non_decision self + non_decision other in
  conditions ← dict_mapM (add_condition (conditions other)) (conditions self);
  Sample_init corr err non_decision conditions.

(** [Sample.__add__] with the keys listed in the order of the model. *)
Definition Sample_add (self other : Sample) : result Sample :=
  Sample_add_listed (keys (conditions self)) (keys (conditions other))
                    self other.

(** *** [from_numpy_array] *)

(** A two-dimensional array: [shape1] is [data.shape[1]]. *)
Record table : Type := {
  shape1 : nat;
  rows : list (list Q)
}.

(** [data[:, j]] *)
Definition column (d : table) (j : nat) : result (list Q) :=
  if decide (j < shape1 d)%nat
  then Ok (map (λ r, default 0%Q (r !! j)) (rows d))
  else Raise IndexError.

(** [x.astype(bool)] on one number *)
Definition astype_bool (x : Q) : bool := negb (Qeq_bool x 0).

(** [int(x)]: truncation towards zero. *)
Definition py_int (x : Q) : Z := Z.quot (Qnum x) (Z.pos (Qden x)).

(** [x.astype(int)] on one number: numpy's [int] is the 64-bit signed
    integer, and a value outside its range is converted to [-2 ^ 63]
    (what the conversion instruction of x86-64 yields). *)
Definition astype_int64 (v : Q) : Z :=
  let z := py_int v in
  if decide (- 2 ^ 63 ≤ z < 2 ^ 63) then z else - 2 ^ 63.

(** The local function [pt] ("Pythonic types"). *)
Definition pt (x : list Q) : pyseq :=
  let arr := np_asarray x in
  if forallb (λ v, Qeq_bool v (inject_Z (np_round v))) (data arr)
  then np_asarray (map (λ v, inject_Z (astype_int64 v)) (data arr))
  else arr.

(** One entry of the dict comprehension of [from_numpy_array]. *)
Definition condition_of_column (d : table) (c nc : list bool)
    (ik : nat * string) : result (string * cond) :=
  col ← column d (ik.1 + 2);
  Ok (ik.2, {| c0 := pt (compress col c);
               c1 := pt (compress col nc);
               c2 := Some (pylist []) |}).

(** [{k: v for ...}]: a later entry replaces an earlier one. *)
Definition dict_of_list {A} (l : list (string * A)) : gmap string A :=
  foldl (λ acc kv, <[kv.1:=kv.2]> acc) ∅ l.

(** [enumerate(l)] *)
Definition enumerate {A} (l : list A) : list (nat * A) := imap pair l.

(** The undecorated function. *)
Definition from_numpy_array_body (d : table) (column_names : list string)
    : result Sample :=
  flag ← column d 1;
  let c := map astype_bool flag in
  let nc := map (λ x, astype_bool (1 - x)%Q) flag in
  entries ← mapM (condition_of_column d c nc)
                 (enumerate (drop 2 column_names));
  let conditions := dict_of_list entries in
  rt ← column d 0;
  Sample_init (pt (compress rt c)) (pt (compress rt nc)) 0 conditions.

(** [Sample.condition_names] *)
Definition condition_names (self : Sample) : list string :=
  keys (conditions self).

(** The [@requires] of [from_numpy_array]; the one that compares column 0
    with its conversion to floating point holds of all numbers. *)
Definition from_numpy_array_requires (d : table) (column_names : list string)
    : bool :=
  bool_decide (2 ≤ shape1 d)%nat
  && match column d 1 with
     | Ok flag => forallb (λ x, Qeq_bool x 0 || Qeq_bool x 1) flag
     | Raise _ => false
     end
  && bool_decide (Z.of_nat (shape1 d) - 2 = Z.of_nat (length column_names)).

(** The [@ensures] of [from_numpy_array]. *)
Definition from_numpy_array_ensures (column_names : list string)
    (ret : Sample) : bool :=
  bool_decide (length column_names = length (condition_names ret)).

(** [Sample.from_numpy_array] with its decorators. *)
Definition from_numpy_array (d : table) (column_names : list string)
    : result Sample :=
  if from_numpy_array_requires d column_names then
    ret ← from_numpy_array_body d column_names;
    if from_numpy_array_ensures column_names ret then Ok ret
    else Raise ExitConditionsError
  else Raise EntryConditionsError.

(** *** [items] and the iterator class [_Sample_Iter_Wraper] *)

Record Sample_Iter : Type := {
  it_sample : Sample;
  it_i : nat;
  it_correct : bool
}.

(** [Sample.items(correct)] *)
Definition Sample_items (self : Sample) (correct : bool) : Sample_Iter :=
  {| it_sample := self; it_i := 0; it_correct := correct |}.

(** [conditions[k][ind]] for [ind] 0 or 1 *)
Definition cond_ind (correct : bool) (v : cond) : pyseq :=
  if correct then c0 v else c1 v.

(** [_Sample_Iter_Wraper.next]: the iterator after the call, and what the
    call returned or raised. *)
Definition Sample_Iter_next (self : Sample_Iter)
    : Sample_Iter * result (Q * gmap string Q) :=
  if decide (Z.of_nat (it_i self) = Sample_len (it_sample self))
  then (self, Raise StopIteration)
  else
    let self' := {| it_sample := it_sample self;
                    it_i := it_i self + 1;
                    it_correct := it_correct self |} in
    let rt := if it_correct self' then corr (it_sample self')
              else err (it_sample self') in
    (self',
     t ← getitem (data rt) (it_i self' - 1);
     cs ← dict_mapM (λ _ v, getitem (data (cond_ind (it_correct self') v))
                                    (it_i self' - 1))
                    (conditions (it_sample self'));
     Ok (t, cs)).

(** Exhausting an iterator, as [for x in it] or [list(it)] does: the pairs
    produced and the exception that escaped, if any ([StopIteration] ends
    the loop and does not escape).  [None] when [fuel] calls of [next]
    did not reach the end. *)
Fixpoint exhaust (fuel : nat) (it : Sample_Iter)
    : option (list (Q * gmap string Q) * option exn) :=
  match fuel with
  | O => None
  | S fuel' =>
      match Sample_Iter_next it with
      | (_, Raise StopIteration) => Some ([], None)
      | (_, Raise e) => Some ([], Some e)
      | (it', Ok x) =>
          match exhaust fuel' it' with
          | Some (l, r) => Some (x :: l, r)
          | None => None
          end
      end
  end.

(** *** [subset] *)

(** The value of a keyword filter, by the protocols it supports. *)
Inductive pyval : Type :=
  | PyFun (f : Q → bool)                        (* [__call__] only *)
  | PyContainer (l : list Q)                    (* [__contains__] only *)
  | PyCallableContainer (f : Q → bool) (l : list Q)       (* both *)
  | PyScalar (x : Q).                           (* a number: neither *)

(** [hasattr(v, '__call__')] *)
Definition has_call (v : pyval) : bool :=
  match v with
  | PyFun _ | PyCallableContainer _ _ => true
  | PyContainer _ | PyScalar _ => false
  end.

(** [hasattr(v, '__contains__')] *)
Definition has_contains (v : pyval) : bool :=
  match v with
  | PyContainer _ | PyCallableContainer _ _ => true
  | PyFun _ | PyScalar _ => false
  end.

(** [v(i)] *)
Definition py_call (v : pyval) (i : Q) : bool :=
  match v with
  | PyFun f | PyCallableContainer f _ => f i
  | PyContainer _ | PyScalar _ => false
  end.

(** [i in v] *)
Definition py_in (v : pyval) (i : Q) : bool :=
  match v with
  | PyContainer l | PyCallableContainer _ l => existsb (Qeq_bool i) l
  | PyFun _ | PyScalar _ => false
  end.

(** [i == v] for a number [i]: a number never equals a function or a
    container. *)
Definition py_eq (v : pyval) (i : Q) : bool :=
  match v with
  | PyScalar x => Qeq_bool i x
  | PyFun _ | PyContainer _ | PyCallableContainer _ _ => false
  end.

Record masks : Type := {
  mask_corr : list bool;
  mask_err : list bool;
  mask_non : list bool
}.

(** [np.ones(n).astype(bool)] *)
Definition np_ones_bool (n : Z) : list bool := replicate (Z.to_nat n) true.

(** [v[2]] on a condition tuple *)
Definition cond_third (v : cond) : result pyseq :=
  match c2 v with
  | Some t => Ok t
  | None => Raise IndexError
  end.

(** One group of three mask updates of [subset]: the three lines under an
    [if] or [else], with [test] the per-value test of that branch. *)
Definition update_masks (self : Sample) (k : string) (test : Q → bool)
    (m : masks) : result masks :=
  ck ← lookup_key (conditions self) k;
  mc ← np_logical_and (mask_corr m) (map test (data (c0 ck)));
  me ← np_logical_and (mask_err m) (map test (data (c1 ck)));
  mn ← (if decide (non_decision self = 0) then Ok []
        else t ← cond_third ck;
             np_logical_and (mask_non m) (map test (data t)));
  Ok {| mask_corr := mc; mask_err := me; mask_non := mn |}.

(** The body of [for k, v in kwargs.items()]: an [if] on [__call__],
    followed by an [if]/[else] on [__contains__]. *)
Definition filter_step (self : Sample) (m : masks) (kv : string * pyval)
    : result masks :=
  m1 ← (if has_call kv.2 then update_masks self kv.1 (py_call kv.2) m
        else Ok m);
  if has_contains kv.2 then update_masks self kv.1 (py_in kv.2) m1
  else update_masks self kv.1 (py_eq kv.2) m1.

Fixpoint filter_loop (self : Sample) (m : masks)
    (kwargs : list (string * pyval)) : result masks :=
  match kwargs with
  | [] => Ok m
  | kv :: rest => m' ← filter_step self m kv; filter_loop self m' rest
  end.

Definition initial_masks (self : Sample) : masks :=
  {| mask_corr := replicate (len (corr self)) true;
     mask_err := replicate (len (err self)) true;
     mask_non := np_ones_bool (non_decision self) |}.

(** The masks of [subset] after its loop. *)
Definition subset_masks (self : Sample) (kwargs : list (string * pyval))
    : result masks :=
  filter_loop self (initial_masks self) kwargs.

(** One value of the comprehension [filtered_conditions]: Python lists. *)
Definition filter_condition (m : masks) (v : cond) : cond :=
  {| c0 := pylist (compress (data (c0 v)) (mask_corr m));
     c1 := pylist (compress (data (c1 v)) (mask_err m));
     c2 := Some (pylist (match c2 v with
                         | Some t => compress (data t) (mask_non m)
                         | None => []
                         end)) |}.

(** [sum(mask)] *)
Definition sum_mask (m : list bool) : Z :=
  Z.of_nat (length (filter (λ b, b = true) m)).

(** [Sample.subset], its keyword arguments in iteration order. *)
Definition Sample_subset (self : Sample) (kwargs : list (string * pyval))
    : result Sample :=
  m ← subset_masks self kwargs;
  let filtered_conditions := filter_condition m <$> conditions self in
  Sample_init (np_asarray (compress (data (corr self)) (mask_corr m)))
              (np_asarray (compress (data (err self)) (mask_err m)))
              (sum_mask (mask_non m))
              filtered_conditions.

(** *** [condition_combinations] *)

(** [list(set(l))]: the distinct values, in some order. *)
Fixpoint py_set (l : list Q) : list Q :=
  match l with
  | [] => []
  | x :: l' => x :: filter (λ y, ¬ Qeq_bool x y) (py_set l')
  end.

(** [list(set(cs[c][0]).union(set(cs[c][1])))] *)
Definition observed_values (v : cond) : list Q :=
  py_set (data (c0 v) ++ data (c1 v)).

(** [itertools.product] of the lists in [ls] *)
Fixpoint product {A} (ls : list (list A)) : list (list A) :=
  match ls with
  | [] => [[]]
  | l :: ls' => x ← l; p ← product ls'; [x :: p]
  end.

(** The body of the loop over the product. *)
Definition combination_step (self : Sample) (names : list string)
    (combs : list (gmap string Q)) (p : list Q)
    : result (list (gmap string Q)) :=
  sub ← Sample_subset self (zip names (PyScalar <$> p));
  if decide (Sample_len sub ≠ 0)
  then Ok (combs ++ [list_to_map (zip names p)])
  else Ok combs.

Fixpoint combination_loop (self : Sample) (names : list string)
    (combs : list (gmap string Q)) (ps : list (list Q))
    : result (list (gmap string Q)) :=
  match ps with
  | [] => Ok combs
  | p :: ps' =>
      combs' ← combination_step self names combs p;
      combination_loop self names combs' ps'
  end.

(** [Sample.condition_combinations(required_conditions)] *)
Definition condition_combinations (self : Sample)
    (required_conditions : option (list string))
    : result (list (gmap string Q)) :=
  let cs := conditions self in
  let names := condition_names self in
  let names := match required_conditions with
               | Some r => filter (λ n, n ∈ r) names
               | None => names
               end in
  conditions ← mapM (λ c, observed_values <$> lookup_key cs c) names;
  combs ← combination_loop self names [] (product conditions);
  if decide (length combs = 0%nat) then Ok [∅] else Ok combs.

(** *** [t_domain] and the probabilities *)

(** [a < b] on numbers *)
Definition Qlt_bool (a b : Q) : bool := negb (Qle_bool b a).

(** [np.linspace(start, stop, num)] with the end point included.  The
    points are the numbers [start + i * step] themselves; numpy stores
    the double nearest to each of them. *)
Definition np_linspace (start stop : Q) (num : Z) : result (list Q) :=
  if decide (num < 0) then Raise ValueError
  else if decide (num = 1) then Ok [start]
  else
    let step := ((stop - start) / inject_Z (num - 1))%Q in
    Ok (map (λ i : nat, (start + inject_Z (Z.of_nat i) * step)%Q)
            (seq 0 (Z.to_nat num))).

(** [T_dur/dt] as Python computes it: a double. *)
Definition quotient_double (dt T_dur : Q) : Q := round_double (T_dur / dt).

(** The number of points that [np.linspace] makes of its third argument
    [T_dur/dt+1], which is a double: it is truncated. *)
Definition points_asked (dt T_dur : Q) : Z :=
  py_int (round_double (quotient_double dt T_dur + 1)).

(** [Sample.t_domain(dt, T_dur)] with its decorators: [@accepts] checks
    that both arguments are positive numbers, [@requires] the bound on
    their quotient, [@returns] that no element is negative.  [dt] and
    [T_dur] are the values of the arguments. *)
Definition t_domain (dt T_dur : Q) : result (list Q) :=
  if negb (Qlt_bool 0 dt && Qlt_bool 0 T_dur)
  then Raise ArgumentTypeError
  else if negb (Qlt_bool (quotient_double dt T_dur) 100000)
  then Raise EntryConditionsError
  else
    ret ← np_linspace 0 T_dur (points_asked dt T_dur);
    if forallb (Qle_bool 0) ret then Ok ret
    else Raise ReturnTypeError.

(** [a / b] on two integers: a zero divisor raises, otherwise the
    result is the double nearest to the quotient. *)
Definition py_div (a b : Z) : result Q :=
  if decide (b = 0) then Raise ZeroDivisionError
  else Ok (round_double (inject_Z a / inject_Z b)).

(** [@returns(Range(0, 1))] *)
Definition returns_Range01 (r : result Q) : result Q :=
  x ← r;
  if Qle_bool 0 x && Qle_bool x 1 then Ok x
  else Raise ReturnTypeError.

Definition prob_correct (self : Sample) : result Q :=
  returns_Range01 (py_div (Z.of_nat (len (corr self))) (Sample_len self)).

Definition prob_error (self : Sample) : result Q :=
  returns_Range01 (py_div (Z.of_nat (len (err self))) (Sample_len self)).

Definition prob_undecided (self : Sample) : result Q :=
  returns_Range01 (py_div (non_decision self) (Sample_len self)).

(** [Sample.prob_correct_forced]: each inner call goes through its own
    [@returns] check, and so does the sum. *)
Definition prob_correct_forced (self : Sample) : result Q :=
  returns_Range01 (p ← prob_correct self;
                   u ← prob_undecided self;
                   Ok (round_double (p + round_double (u / 2)))).

(** [Sample.prob_error_forced] *)
Definition prob_error_forced (self : Sample) : result Q :=
  returns_Range01 (p ← prob_error self;
                   u ← prob_undecided self;
                   Ok (round_double (p + round_double (u / 2)))).


(** [sorted(l)] on numbers *)
Definition Q_le (a b : Q) : Prop := Qle_bool a b = true.
#[global] Instance Q_le_dec a b : Decision (Q_le a b) :=
  decide (Qle_bool a b = true).

Definition py_sorted (l : list Q) : list Q := merge_sort Q_le l.

(** [Sample.condition_values(cond)] with its [@requires]. *)
Definition condition_values (self : Sample) (cond : string)
    : result (list Q) :=
  if bool_decide (cond ∈ condition_names self) then
    v ← lookup_key (conditions self) cond;
    Ok (py_sorted (observed_values v))
  else Raise EntryConditionsError.

(** * Vocabulary of the properties *)

(** What [__init__] asserts of one condition tuple and leaves behind. *)
Record cond_wf (ncorr nerr : nat) (nd : Z) (v : cond) : Prop := {
  wf_c0_array : in_NDArray (c0 v) = true;
  wf_c1_array : in_NDArray (c1 v) = true;
  wf_c0_len : len (c0 v) = ncorr;
  wf_c1_len : len (c1 v) = nerr;
  wf_c2_len : match c2 v with
              | Some t => Z.of_nat (len t) = nd
              | None => nd = 0
              end
}.

(** The invariant of a constructed Sample. *)
Record Sample_wf (s : Sample) : Prop := {
  wf_corr_array : in_NDArray (corr s) = true;
  wf_err_array : in_NDArray (err s) = true;
  wf_non_decision : 0 ≤ non_decision s;
  wf_conditions : ∀ k v, conditions s !! k = Some v →
                    cond_wf (len (corr s)) (len (err s)) (non_decision s) v
}.

(** The claim that every stored array, the third one of a condition
    included, is read-only. *)
Definition all_stored_readonly (s : Sample) : Prop :=
  readonly (corr s) = true ∧ readonly (err s) = true ∧
  ∀ k v, conditions s !! k = Some v →
    readonly (c0 v) = true ∧ readonly (c1 v) = true ∧
    ∀ t, c2 v = Some t → readonly t = true.

(** One correct trial, one non-decision trial, and a condition whose
    non-decision values are the list [[7]], as the class documentation
    asks for. *)
Definition sample_with_third : result Sample :=
  Sample_init (np_asarray [1%Q]) (np_asarray []) 1
    {[ "color" := {| c0 := np_asarray [5%Q]; c1 := np_asarray [];
                     c2 := Some (pylist [7%Q]) |} ]}.

(** The times that [items(correct)] walks through. *)
Definition partition (s : Sample) (correct : bool) : pyseq :=
  if correct then corr s else err s.

(** The iterator of [items(correct)] after [i] successful calls of [next]. *)
Definition iter_at (s : Sample) (i : nat) (correct : bool) : Sample_Iter :=
  {| it_sample := s; it_i := i; it_correct := correct |}.

(** One correct trial with a condition [color]. *)
Definition sample_with_condition : result Sample :=
  Sample_init (np_asarray [1 # 10]%Q) (np_asarray []) 0
    {[ "color" := {| c0 := np_asarray [1%Q]; c1 := np_asarray [];
                     c2 := None |} ]}.

(** The masks of [subset] have the lengths of the three groups of trials. *)
Record masks_wf (s : Sample) (m : masks) : Prop := {
  wf_mask_corr : length (mask_corr m) = len (corr s);
  wf_mask_err : length (mask_err m) = len (err s);
  wf_mask_non : length (mask_non m) = Z.to_nat (non_decision s)
}.

(** The masks after one group of updates: each one and-ed with the test
    of the values of condition [k]. *)
Definition updated_masks (nd : Z) (test : Q → bool) (v : cond) (m : masks)
    : masks :=
  {| mask_corr := zip_with andb (mask_corr m) (map test (data (c0 v)));
     mask_err := zip_with andb (mask_err m) (map test (data (c1 v)));
     mask_non := if decide (nd = 0) then []
                 else zip_with andb (mask_non m)
                                    (map test (data (third_or_empty v))) |}.

(** The masks after the body of the loop for one filter. *)
Definition stepped_masks (nd : Z) (v : cond) (m : masks) (f : pyval)
    : masks :=
  let m1 := if has_call f then updated_masks nd (py_call f) v m else m in
  if has_contains f then updated_masks nd (py_in f) v m1
  else updated_masks nd (py_eq f) v m1.

(** The names that [condition_combinations] works with. *)
Definition kept_names (s : Sample) (required_conditions : option (list string))
    : list string :=
  match required_conditions with
  | Some r => filter (λ n, n ∈ r) (condition_names s)
  | None => condition_names s
  end.

(** Two trials, one correct and one not, and one condition column. *)
Definition table_with_color : table :=
  {| shape1 := 3; rows := [[1 # 2; 1; 7]; [3 # 10; 0; 9]]%Q |}.

(** The length of the result of a numpy binary operator, when the operand
    lengths can be broadcast together. *)
Definition broadcast_len (la lb : nat) : option nat :=
  if decide (la = lb) then Some la
  else if decide (la = 1%nat) then Some lb
  else if decide (lb = 1%nat) then Some la
  else None.

(** The class documentation asks for a list as third element of a
    condition. *)
Definition thirds_are_lists (s : Sample) : Prop :=
  ∀ k v t, conditions s !! k = Some v → c2 v = Some t → in_NDArray t = false.

(** The condition tuple that [__add__] builds and the constructor then
    stores, when the operands have the same numbers of trials. *)
Definition added_condition (vs vo : cond) : cond :=
  {| c0 := ndarray false (zip_with np_add (data (c0 vs)) (data (c0 vo)));
     c1 := ndarray false (zip_with np_add (data (c1 vs)) (data (c1 vo)));
     c2 := Some (pylist (data (third_or_empty vs)
                         ++ data (third_or_empty vo))) |}.

(** Two correct trials, one error trial and one non-decision trial, with
    a condition [color]. *)
Definition sample_three_kinds : Sample :=
  {| corr := ndarray false [1; 2]%Q;
     err := ndarray false [3%Q];
     non_decision := 1;
     conditions :=
       {[ "color" := {| c0 := ndarray false [5; 6]%Q;
                        c1 := ndarray false [5%Q];
                        c2 := Some (pylist [7%Q]) |} ]} |}.



(** The sequence [0, step, 2 step, ...]. *)
Definition evenly_spaced (step : Q) (l : list Q) : Prop :=
  ∀ (i : nat) x, l !! i = Some x → (x == inject_Z (Z.of_nat i) * step)%Q.



(** What the constructor asks of its arguments. *)
Definition init_args_ok (sample_corr sample_err : pyseq) (nd : Z)
    (kwargs : gmap string cond) : Prop :=
  in_NDArray sample_corr = true ∧ in_NDArray sample_err = true ∧ 0 ≤ nd ∧
  ∀ k v, kwargs !! k = Some v →
         cond_wf (len sample_corr) (len sample_err) nd v.

(** No two numbers of the list are equal. *)
Fixpoint distinctQ (l : list Q) : Prop :=
  match l with
  | [] => True
  | x :: l' => Forall (λ y, ¬ (x == y)%Q) l' ∧ distinctQ l'
  end.

(** The numbers whose truncation fits a 64-bit signed integer. *)
Definition fits_int64 (v : Q) : Prop := - 2 ^ 63 ≤ py_int v < 2 ^ 63.

(** * Properties *)

(** ** Fallible computations *)

Section result_facts.
Context {A B : Type}.

Lemma bind_Ok (m : result A) (f : A → result B) (b : B) :
  m ≫= f = Ok b → ∃ a, m = Ok a ∧ f a = Ok b.
Proof. destruct m as [a|e]; simpl; [eauto | discriminate]. Qed.

Lemma fmap_Ok (m : result A) (f : A → B) (b : B) :
  f <$> m = Ok b → ∃ a, m = Ok a ∧ b = f a.
Proof. destruct m as [a|e]; simpl; intros [= <-]; eauto. Qed.

Lemma py_assert_Ok (b : bool) (u : unit) : py_assert b = Ok u → b = true.
Proof. by destruct b. Qed.

Lemma is_Ok_Ok (a : A) : is_Ok (Ok a).
Proof. by exists a. Qed.

Lemma not_is_Ok_Raise (e : exn) : ¬ is_Ok (@Raise A e).
Proof. by intros [a ?]. Qed.
End result_facts.

(** Invert a hypothesis [x ← m; k = Ok b] once. *)
Ltac inv_bind H :=
  let a := fresh "a" in
  let Ha := fresh "H" a in
  apply bind_Ok in H as (a & Ha & H).

Ltac inv_assert H :=
  let u := fresh "u" in
  let Hu := fresh "Hassert" in
  apply bind_Ok in H as (u & Hu & H); apply py_assert_Ok in Hu.

(** ** Double-precision arithmetic *)

(** *** Powers of two *)

Lemma pow2_pos e : (0 < pow2 e)%Q.
Proof. by apply Qpower_0_lt. Qed.

Lemma pow2_add a b : (pow2 (a + b) == pow2 a * pow2 b)%Q.
Proof. by apply Qpower_plus. Qed.

Lemma pow2_le a b : a ≤ b → (pow2 a <= pow2 b)%Q.
Proof. intros H. by apply Qpower_le_compat_l. Qed.

Lemma pow2_lt a b : a < b → (pow2 a < pow2 b)%Q.
Proof. intros H. by apply Qpower_lt_compat_l. Qed.

Lemma pow2_lt_inv a b : (pow2 a < pow2 b)%Q → a < b.
Proof. intros H. by apply (Qpower_lt_compat_l_inv 2). Qed.

Lemma pow2_inject e : 0 ≤ e → (pow2 e == inject_Z (2 ^ e))%Q.
Proof. intros H. unfold pow2. by rewrite Zpower_Qpower. Qed.

Lemma pow2_succ e : (pow2 (e + 1) == 2 * pow2 e)%Q.
Proof. rewrite pow2_add. change (pow2 1) with 2%Q. ring. Qed.

Lemma pow2_sub a b : (pow2 (a - b) == pow2 a / pow2 b)%Q.
Proof.
  pose proof (pow2_pos b) as Hb.
  assert (pow2 a == pow2 (a - b) * pow2 b)%Q as ->
    by (rewrite <-pow2_add; by replace (a - b + b) with a by lia).
  field. lra.
Qed.

(** *** The binary exponent *)

Lemma ilog2_spec (x : Q) :
  (0 < x)%Q → (pow2 (ilog2 x) <= x)%Q ∧ (x < pow2 (ilog2 x + 1))%Q.
Proof.
  intros Hx. unfold ilog2.
  set (k := Z.log2 (Qnum x) - Z.log2 (Z.pos (Qden x))).
  assert ((pow2 (k - 1) < x)%Q ∧ (x < pow2 (k + 1))%Q) as [Hlo Hhi].
  { destruct x as [n d]. cbn [Qnum Qden] in k.
    assert (0 < n) as Hn by (unfold Qlt in Hx; simpl in Hx; lia).
    pose proof (Z.log2_spec n Hn) as [Hn1 Hn2].
    pose proof (Z.log2_spec (Z.pos d) (Pos2Z.is_pos d)) as [Hd1 Hd2].
    pose proof (Z.log2_nonneg n) as Ln.
    pose proof (Z.log2_nonneg (Z.pos d)) as Ld.
    set (ln := Z.log2 n) in *. set (ld := Z.log2 (Z.pos d)) in *.
    assert (pow2 ln <= inject_Z n)%Q as Qn1
      by (rewrite pow2_inject by done; by rewrite <-Zle_Qle).
    assert (inject_Z n < pow2 (ln + 1))%Q as Qn2
      by (rewrite pow2_inject by lia; by rewrite <-Zlt_Qlt).
    assert (pow2 ld <= inject_Z (Z.pos d))%Q as Qd1
      by (rewrite pow2_inject by done; by rewrite <-Zle_Qle).
    assert (inject_Z (Z.pos d) < pow2 (ld + 1))%Q as Qd2
      by (rewrite pow2_inject by lia; by rewrite <-Zlt_Qlt).
    assert (0 < inject_Z (Z.pos d))%Q as Qd0 by done.
    rewrite (Qmake_Qdiv n d).
    pose proof (pow2_pos ld) as Pld. pose proof (pow2_pos (k - 1)) as Pk.
    pose proof (pow2_pos (ld + 1)) as Pld1.
    split.
    - apply Qlt_shift_div_l; [done|].
      apply Qlt_le_trans with (pow2 (k - 1) * pow2 (ld + 1))%Q.
      + apply Qmult_lt_l; done.
      + rewrite <-pow2_add.
        by replace (k - 1 + (ld + 1)) with ln by (unfold k, ln, ld; lia).
    - apply Qlt_shift_div_r; [done|].
      apply Qlt_le_trans with (pow2 (ln + 1)); [done|].
      replace (ln + 1) with (k + 1 + ld) by (unfold k, ln, ld; lia).
      rewrite pow2_add.
      apply Qmult_le_l; [apply pow2_pos|done]. }
  destruct (Qle_bool (pow2 k) x) eqn:E.
  - apply Qle_bool_iff in E. done.
  - split; [by apply Qlt_le_weak|].
    replace (k - 1 + 1) with k by lia.
    apply Qnot_le_lt. intros H. apply Qle_bool_iff in H. congruence.
Qed.

Lemma ilog2_unique (x : Q) (e : Z) :
  (pow2 e <= x)%Q → (x < pow2 (e + 1))%Q → ilog2 x = e.
Proof.
  intros Hlo Hhi.
  assert (0 < x)%Q as Hx
    by (eapply Qlt_le_trans; [apply (pow2_pos e)|done]).
  destruct (ilog2_spec x Hx) as [Slo Shi].
  assert (ilog2 x < e + 1)
    by (apply pow2_lt_inv; eapply Qle_lt_trans; eassumption).
  assert (e < ilog2 x + 1)
    by (apply pow2_lt_inv; eapply Qle_lt_trans; eassumption).
  lia.
Qed.

Lemma ilog2_mono (x y : Q) : (0 < x)%Q → (x <= y)%Q → ilog2 x ≤ ilog2 y.
Proof.
  intros Hx Hxy.
  assert (0 < y)%Q as Hy by (eapply Qlt_le_trans; eassumption).
  destruct (ilog2_spec x Hx) as [Xlo _], (ilog2_spec y Hy) as [_ Yhi].
  assert (ilog2 x < ilog2 y + 1); [|lia].
  apply pow2_lt_inv. eapply Qle_lt_trans; [exact Xlo|].
  eapply Qle_lt_trans; eassumption.
Qed.

(** *** Rounding to an integer *)

Ltac Qcompare_to_prop :=
  repeat match goal with
  | H : (_ ?= _)%Q = Eq |- _ => apply Qeq_alt in H
  | H : (_ ?= _)%Q = Lt |- _ => apply Qlt_alt in H
  | H : (_ ?= _)%Q = Gt |- _ => apply Qgt_alt in H
  end.

Lemma np_round_floor (x : Q) :
  np_round x = Qfloor x ∨ np_round x = Qfloor x + 1.
Proof.
  unfold np_round. destruct (_ ?= _)%Q; [destruct (Z.even _)|..]; auto.
Qed.

Lemma np_round_near (x : Q) :
  (x - (1 # 2) <= inject_Z (np_round x))%Q
  ∧ (inject_Z (np_round x) <= x + (1 # 2))%Q.
Proof.
  pose proof (Qfloor_le x) as Hlo. pose proof (Qlt_floor x) as Hhi.
  rewrite inject_Z_plus in Hhi. change (inject_Z 1) with 1%Q in Hhi.
  unfold np_round.
  destruct (x - inject_Z (Qfloor x) ?= 1 # 2)%Q eqn:E.
  - apply Qeq_alt in E.
    destruct (Z.even (Qfloor x)); rewrite ?inject_Z_plus;
      change (inject_Z 1) with 1%Q; split; lra.
  - apply Qlt_alt in E. split; lra.
  - apply Qgt_alt in E. rewrite inject_Z_plus.
    change (inject_Z 1) with 1%Q. split; lra.
Qed.

Lemma np_round_ge (x : Q) (n : Z) : (inject_Z n <= x)%Q → n ≤ np_round x.
Proof.
  intros H. apply Qfloor_resp_le in H. rewrite Qfloor_Z in H.
  destruct (np_round_floor x); lia.
Qed.

Lemma np_round_le (x : Q) (n : Z) : (x <= inject_Z n)%Q → np_round x ≤ n.
Proof.
  intros H. pose proof (Qfloor_resp_le _ _ H) as Hf. rewrite Qfloor_Z in Hf.
  destruct (decide (Qfloor x = n)) as [Heq|Hne].
  - unfold np_round.
    destruct (x - inject_Z (Qfloor x) ?= 1 # 2)%Q eqn:E; [|lia|].
    + apply Qeq_alt in E. rewrite Heq in E. lra.
    + apply Qgt_alt in E. rewrite Heq in E. lra.
  - destruct (np_round_floor x); lia.
Qed.

Lemma np_round_mono (x y : Q) : (x <= y)%Q → np_round x ≤ np_round y.
Proof.
  intros H. pose proof (Qfloor_resp_le _ _ H) as Hf.
  destruct (decide (Qfloor x = Qfloor y)) as [Heq|Hne].
  - unfold np_round. rewrite Heq.
    destruct (x - inject_Z (Qfloor y) ?= 1 # 2)%Q eqn:Ex;
    destruct (y - inject_Z (Qfloor y) ?= 1 # 2)%Q eqn:Ey;
      Qcompare_to_prop;
      try destruct (Z.even (Qfloor y)); try lia; exfalso; lra.
  - destruct (np_round_floor x), (np_round_floor y); lia.
Qed.

(** *** Rounding to a double *)

Lemma Qabs_nonneg_eq (x : Q) : (0 <= x)%Q → Qabs x = x.
Proof.
  destruct x as [n d]. unfold Qle. simpl. intros H.
  unfold Qabs. f_equal. apply Z.abs_eq. lia.
Qed.

Lemma ulp_pos (x : Q) : (0 < ulp x)%Q.
Proof. apply pow2_pos. Qed.

Lemma ulp_nonneg_arg (x : Q) :
  (0 <= x)%Q → ulp x = pow2 (Z.max (ilog2 x) (-1022) - 52).
Proof. intros H. unfold ulp. by rewrite Qabs_nonneg_eq. Qed.

(** A positive number, divided by the spacing of the doubles around it,
    lies below [2 ^ 53], and at or above [2 ^ 52] unless it is
    subnormal. *)
Lemma scaled_upper (x : Q) : (0 < x)%Q → (x / ulp x <= inject_Z (2 ^ 53))%Q.
Proof.
  intros Hx. rewrite ulp_nonneg_arg by by apply Qlt_le_weak.
  set (e := Z.max (ilog2 x) (-1022)).
  destruct (ilog2_spec x Hx) as [_ Hhi].
  apply Qle_shift_div_r; [apply pow2_pos|].
  rewrite <-pow2_inject, <-pow2_add by done.
  replace (53 + (e - 52)) with (e + 1) by lia.
  apply Qlt_le_weak. eapply Qlt_le_trans; [exact Hhi|].
  apply pow2_le. lia.
Qed.

Lemma scaled_lower (x : Q) :
  (0 < x)%Q → -1022 ≤ ilog2 x → (inject_Z (2 ^ 52) <= x / ulp x)%Q.
Proof.
  intros Hx He. rewrite ulp_nonneg_arg by by apply Qlt_le_weak.
  rewrite Z.max_l by done.
  destruct (ilog2_spec x Hx) as [Hlo _].
  apply Qle_shift_div_l; [apply pow2_pos|].
  rewrite <-pow2_inject, <-pow2_add by done.
  by replace (52 + (ilog2 x - 52)) with (ilog2 x) by lia.
Qed.

Lemma round_double_zero (x : Q) : (x == 0)%Q → (round_double x == 0)%Q.
Proof.
  intros Hx. unfold round_double.
  pose proof (ulp_pos x) as Hu. set (u := ulp x) in *. clearbody u.
  assert (x / u == 0)%Q as H0 by (rewrite Hx; field; lra).
  assert (np_round (x / u) ≤ 0) by (apply np_round_le; by rewrite H0).
  assert (0 ≤ np_round (x / u)) by (apply np_round_ge; by rewrite H0).
  assert (np_round (x / u) = 0) as -> by lia. ring.
Qed.

Lemma round_double_nonneg (x : Q) : (0 <= x)%Q → (0 <= round_double x)%Q.
Proof.
  intros Hx. unfold round_double. pose proof (ulp_pos x) as Hu.
  apply Qmult_le_0_compat; [|lra].
  change 0%Q with (inject_Z 0). rewrite <-Zle_Qle. apply np_round_ge.
  apply Qle_shift_div_l; [done|]. change (inject_Z 0) with 0%Q. lra.
Qed.

Lemma round_double_upper (x : Q) :
  (0 < x)%Q → (round_double x <= pow2 (Z.max (ilog2 x) (-1022) + 1))%Q.
Proof.
  intros Hx. unfold round_double. pose proof (ulp_pos x) as Hu.
  pose proof (np_round_le _ _ (scaled_upper x Hx)) as Hm.
  rewrite Zle_Qle in Hm.
  apply Qle_trans with (inject_Z (2 ^ 53) * ulp x)%Q.
  { apply Qmult_le_compat_r; [done|lra]. }
  rewrite ulp_nonneg_arg by by apply Qlt_le_weak.
  rewrite <-pow2_inject, <-pow2_add by done.
  apply pow2_le. lia.
Qed.

Lemma round_double_lower (x : Q) :
  (0 < x)%Q → -1022 ≤ ilog2 x → (pow2 (ilog2 x) <= round_double x)%Q.
Proof.
  intros Hx He. unfold round_double. pose proof (ulp_pos x) as Hu.
  pose proof (np_round_ge _ _ (scaled_lower x Hx He)) as Hm.
  rewrite Zle_Qle in Hm.
  apply Qle_trans with (inject_Z (2 ^ 52) * ulp x)%Q.
  2: { apply Qmult_le_compat_r; [done|lra]. }
  rewrite ulp_nonneg_arg by by apply Qlt_le_weak.
  rewrite Z.max_l by done.
  rewrite <-pow2_inject, <-pow2_add by done.
  apply pow2_le. lia.
Qed.

(** Rounding keeps the order. *)
Lemma round_double_mono (x y : Q) :
  (0 <= x)%Q → (x <= y)%Q → (round_double x <= round_double y)%Q.
Proof.
  intros Hx Hxy.
  assert (0 <= y)%Q as Hy by lra.
  destruct (Qlt_le_dec 0 x) as [Hpos|Hzero].
  2: { rewrite (round_double_zero x) by lra. by apply round_double_nonneg. }
  assert (0 < y)%Q as Hypos by lra.
  pose proof (ilog2_mono x y Hpos Hxy) as Hlog.
  destruct (decide (Z.max (ilog2 x) (-1022) = Z.max (ilog2 y) (-1022)))
    as [Heq|Hne].
  - unfold round_double.
    assert (ulp y = ulp x) as Hu
      by (rewrite !ulp_nonneg_arg by done; by rewrite Heq).
    rewrite Hu. pose proof (ulp_pos x) as Hupos.
    apply Qmult_le_compat_r; [|lra].
    rewrite <-Zle_Qle. apply np_round_mono.
    apply Qmult_le_compat_r; [done|].
    apply Qlt_le_weak, Qinv_lt_0_compat, Hupos.
  - eapply Qle_trans; [by apply round_double_upper|].
    eapply Qle_trans; [|apply round_double_lower; [done|lia]].
    apply pow2_le. lia.
Qed.


(** Whole numbers of ordinary size are doubles; three of them matter. *)
Lemma round_double_1 : (round_double 1 == 1)%Q.
Proof. by vm_compute. Qed.


Lemma round_double_ge_1 (x : Q) : (1 <= x)%Q → (1 <= round_double x)%Q.
Proof.
  intros H. rewrite <-round_double_1. by apply round_double_mono.
Qed.

Lemma round_double_le_1 (x : Q) :
  (0 <= x)%Q → (x <= 1)%Q → (round_double x <= 1)%Q.
Proof.
  intros H0 H1. rewrite <-round_double_1. by apply round_double_mono.
Qed.


(** Whole numbers below [2 ^ 53] are doubles. *)
Lemma np_round_whole (x : Q) (n : Z) : (x == inject_Z n)%Q → np_round x = n.
Proof.
  intros H. apply Z.le_antisymm.
  - apply np_round_le. rewrite H. apply Qle_refl.
  - apply np_round_ge. rewrite H. apply Qle_refl.
Qed.


Lemma round_double_Qeq (x y : Q) :
  (0 <= x)%Q → (x == y)%Q → (round_double x == round_double y)%Q.
Proof.
  intros Hx Hxy. apply Qle_antisym; apply round_double_mono; lra.
Qed.

(** The error of rounding is at most half the spacing. *)
Lemma round_double_near (x : Q) :
  (x - ulp x * (1 # 2) <= round_double x)%Q
  ∧ (round_double x <= x + ulp x * (1 # 2))%Q.
Proof.
  unfold round_double. pose proof (ulp_pos x) as Hu.
  destruct (np_round_near (x / ulp x)) as [Hlo Hhi].
  split.
  - apply Qle_trans with ((x / ulp x - (1 # 2)) * ulp x)%Q.
    + setoid_replace ((x / ulp x - (1 # 2)) * ulp x)%Q
        with (x - ulp x * (1 # 2))%Q using relation Qeq by (field; lra).
      apply Qle_refl.
    + apply Qmult_le_compat_r; [done|lra].
  - apply Qle_trans with ((x / ulp x + (1 # 2)) * ulp x)%Q.
    + apply Qmult_le_compat_r; [done|lra].
    + setoid_replace ((x / ulp x + (1 # 2)) * ulp x)%Q
        with (x + ulp x * (1 # 2))%Q using relation Qeq by (field; lra).
      apply Qle_refl.
Qed.

Lemma ulp_below (x : Q) (e : Z) :
  (0 < x)%Q → (x < pow2 (e + 1))%Q → -1022 ≤ e → (ulp x <= pow2 (e - 52))%Q.
Proof.
  intros Hx Hlt He. rewrite ulp_nonneg_arg by lra.
  destruct (ilog2_spec x Hx) as [Hlo _].
  assert (pow2 (ilog2 x) < pow2 (e + 1))%Q as H by lra.
  apply pow2_lt_inv in H. apply pow2_le. lia.
Qed.

Lemma round_double_pow2 (k : Z) :
  -1022 ≤ k → (round_double (pow2 k) == pow2 k)%Q.
Proof.
  intros Hk. pose proof (pow2_pos k) as Hpos.
  assert (ilog2 (pow2 k) = k) as He.
  { apply ilog2_unique; [apply Qle_refl|]. apply pow2_lt. lia. }
  unfold round_double. rewrite ulp_nonneg_arg by lra. rewrite He.
  rewrite Z.max_l by done.
  assert (pow2 k / pow2 (k - 52) == inject_Z (2 ^ 52))%Q as Hs.
  { rewrite <-pow2_inject by done. rewrite <-pow2_sub. 
    replace (k - (k - 52)) with 52 by lia. reflexivity. }
  rewrite (np_round_whole _ _ Hs).
  rewrite <-pow2_inject, <-pow2_add by done.
  replace (52 + (k - 52)) with k by lia. reflexivity.
Qed.

Lemma round_double_within (x : Q) (e : Z) :
  (0 <= x)%Q → (x <= pow2 (e + 1))%Q → -1022 ≤ e →
  (x - pow2 (e - 53) <= round_double x)%Q
  ∧ (round_double x <= x + pow2 (e - 53))%Q.
Proof.
  intros H0 Hle He. pose proof (pow2_pos (e - 53)) as Hpos.
  destruct (Qlt_le_dec 0 x) as [Hx|Hz].
  2: { rewrite (round_double_zero x) by lra. split; lra. }
  destruct (Qlt_le_dec x (pow2 (e + 1))) as [Hlt|Hge].
  - pose proof (ulp_below x e Hx Hlt He) as Hu.
    pose proof (pow2_succ (e - 53)) as H2.
    replace (e - 53 + 1) with (e - 52) in H2 by lia.
    destruct (round_double_near x) as [Hlo Hhi]. split; lra.
  - assert (x == pow2 (e + 1))%Q as Heq by lra.
    pose proof (round_double_Qeq _ _ H0 Heq) as Hr.
    rewrite round_double_pow2 in Hr by lia. split; lra.
Qed.

Lemma round_double_above_1 : (round_double (1 + pow2 (-53)) == 1)%Q.
Proof. by vm_compute. Qed.

(** The forced-choice arithmetic. *)
Lemma forced_bound (x y : Q) :
  (0 <= x)%Q → (0 <= y)%Q → (x + y <= 1)%Q →
  (0 <= round_double (round_double x + round_double (round_double y / 2)))%Q
  ∧ (round_double (round_double x + round_double (round_double y / 2)) <= 1)%Q
  ∧ (x + y / 2 - pow2 (-52)
     <= round_double (round_double x + round_double (round_double y / 2)))%Q
  ∧ (round_double (round_double x + round_double (round_double y / 2))
     <= x + y / 2 + pow2 (-52))%Q.
Proof.
  intros Hx Hy Hxy.
  pose proof (pow2_succ (-55)) as E54. change (-55 + 1) with (-54) in E54.
  pose proof (pow2_succ (-54)) as E53. change (-54 + 1) with (-53) in E53.
  pose proof (pow2_succ (-53)) as E52. change (-53 + 1) with (-52) in E52.
  pose proof (pow2_pos (-55)) as P55.
  assert (pow2 (-55) <= 1 # 100)%Q as P55u by (vm_compute; discriminate).
  destruct (round_double_within x (-1)) as [Pl Pu]; [done| |done|].
  { change (pow2 (-1 + 1)) with 1%Q. lra. }
  destruct (round_double_within y (-1)) as [Ul Uu]; [done| |done|].
  { change (pow2 (-1 + 1)) with 1%Q. lra. }
  change (-1 - 53) with (-54) in *.
  pose proof (round_double_nonneg x Hx) as P0.
  pose proof (round_double_nonneg y Hy) as U0.
  assert (round_double y <= 1)%Q as U1 by (apply round_double_le_1; lra).
  set (p := round_double x) in *. set (u := round_double y) in *.
  assert (u / 2 + u / 2 == u)%Q as Hhalf by field.
  assert (y / 2 + y / 2 == y)%Q as Hyhalf by field.
  set (hu := (u / 2)%Q) in *. set (hy := (y / 2)%Q) in *.
  destruct (round_double_within hu (-2)) as [Hl Hu]; [lra| |done|].
  { change (pow2 (-2 + 1)) with (1 # 2)%Q. lra. }
  change (-2 - 53) with (-55) in *.
  assert (0 <= round_double hu)%Q as H0 by (apply round_double_nonneg; lra).
  set (h := round_double hu) in *.
  destruct (round_double_within (p + h) 0) as [Fl Fu]; [lra| |done|].
  { change (pow2 (0 + 1)) with 2%Q. lra. }
  change (0 - 53) with (-53) in *.
  assert (round_double (p + h) <= 1)%Q as F1.
  { rewrite <-round_double_above_1. apply round_double_mono; lra. }
  pose proof (round_double_nonneg (p + h)) as F0.
  set (e55 := pow2 (-55)) in *. set (e54 := pow2 (-54)) in *.
  set (e53 := pow2 (-53)) in *. set (e52 := pow2 (-52)) in *.
  repeat split; lra.
Qed.

(** ** Dictionaries built entry by entry *)

Section dict_mapM.
Context {A B : Type} (f : string → A → result B).

Lemma dict_mapM_empty : dict_mapM f ∅ = Ok ∅.
Proof. unfold dict_mapM. by rewrite map_fold_empty. Qed.

(** When it returns, every key has been mapped, and no key was added. *)
Lemma dict_mapM_Ok (d : gmap string A) (d' : gmap string B) :
  dict_mapM f d = Ok d' →
  ∀ k, match d !! k with
       | Some v => ∃ v', f k v = Ok v' ∧ d' !! k = Some v'
       | None => d' !! k = None
       end.
Proof.
  unfold dict_mapM. revert d'.
  apply (map_fold_weak_ind (λ r m, ∀ d', r = Ok d' → ∀ k,
    match m !! k with
    | Some v => ∃ v', f k v = Ok v' ∧ d' !! k = Some v'
    | None => d' !! k = None
    end)).
  - intros d' [= <-] k. by rewrite !lookup_empty.
  - intros i x m r Hi IH d' Hr k.
    inv_bind Hr. inv_bind Hr. injection Hr as <-.
    specialize (IH _ Ha k).
    destruct (decide (i = k)) as [->|Hne].
    + rewrite !lookup_insert_eq. eauto.
    + by rewrite !lookup_insert_ne.
Qed.

Lemma dict_mapM_lookup (d : gmap string A) (d' : gmap string B) k v' :
  dict_mapM f d = Ok d' → d' !! k = Some v' →
  ∃ v, d !! k = Some v ∧ f k v = Ok v'.
Proof.
  intros Hd Hk. pose proof (dict_mapM_Ok _ _ Hd k) as H.
  destruct (d !! k) as [v|]; [|congruence].
  destruct H as (v'' & Hf & Hk'). exists v. split; [done|congruence].
Qed.

Lemma dict_mapM_dom (d : gmap string A) (d' : gmap string B) :
  dict_mapM f d = Ok d' → dom d' = dom d.
Proof.
  intros Hd. apply set_eq. intros k. rewrite !elem_of_dom.
  pose proof (dict_mapM_Ok _ _ Hd k) as H.
  destruct (d !! k) as [v|].
  - destruct H as (v' & _ & ->). split; eauto.
  - rewrite H. split; intros [? ?]; discriminate.
Qed.

(** It returns as soon as every entry can be computed. *)
Lemma dict_mapM_is_Ok (d : gmap string A) :
  (∀ k v, d !! k = Some v → is_Ok (f k v)) → is_Ok (dict_mapM f d).
Proof.
  unfold dict_mapM.
  apply (map_fold_weak_ind (λ r m,
    (∀ k v, m !! k = Some v → is_Ok (f k v)) → is_Ok r)).
  - intros _. apply is_Ok_Ok.
  - intros i x m r Hi IH Hall.
    destruct IH as [acc ->].
    { intros k v Hk. apply (Hall k v).
      rewrite lookup_insert_ne; [done|]. intros ->. congruence. }
    destruct (Hall i x) as [v' Hv']; [by rewrite lookup_insert_eq|].
    simpl. rewrite Hv'. apply is_Ok_Ok.
Qed.

(** It raises [e] when the dictionary has an entry and every entry
    raises [e]. *)
Lemma dict_mapM_Raise (d : gmap string A) (e : exn) :
  d ≠ ∅ → (∀ k v, d !! k = Some v → f k v = Raise e) →
  dict_mapM f d = Raise e.
Proof.
  intros Hne Hall.
  assert (d = ∅ ∧ dict_mapM f d = Ok ∅ ∨ dict_mapM f d = Raise e)
    as [[? _]|?]; [|done..].
  revert Hall. clear Hne. unfold dict_mapM.
  apply (map_fold_weak_ind (λ r m,
    (∀ k v, m !! k = Some v → f k v = Raise e) →
    m = ∅ ∧ r = Ok ∅ ∨ r = Raise e)).
  - by left.
  - intros i x m r Hi IH Hall. right.
    rewrite (Hall i x); [|by rewrite lookup_insert_eq].
    destruct IH as [[_ ->]| ->]; [|done..].
    intros k v Hk. apply (Hall k v).
    rewrite lookup_insert_ne; [done|]. intros ->. congruence.
Qed.
End dict_mapM.

(** ** The invariant established by the constructor *)

Lemma set_readonly_Ok a a' :
  set_readonly a = Ok a' →
  in_NDArray a = true ∧ a' = ndarray false (data a).
Proof. destruct a; simpl; [intros [= <-]; done | discriminate]. Qed.

Lemma check_condition_Ok ncorr nerr nd v v' :
  check_condition ncorr nerr nd v = Ok v' →
  cond_wf ncorr nerr nd v ∧
  v' = {| c0 := ndarray false (data (c0 v));
          c1 := ndarray false (data (c1 v));
          c2 := c2 v |}.
Proof.
  unfold check_condition. intros H.
  inv_assert H. inv_assert H. inv_assert H. inv_assert H.
  apply bool_decide_eq_true in Hassert1, Hassert2.
  inv_bind H. inv_bind H. inv_bind H. injection H as <-.
  apply set_readonly_Ok in Ha as [_ ->], Ha0 as [_ ->].
  split; [|done]. split; try done.
  destruct (c2 v); apply py_assert_Ok, bool_decide_eq_true in Ha1; done.
Qed.

Lemma check_condition_wf ncorr nerr nd v :
  cond_wf ncorr nerr nd v → is_Ok (check_condition ncorr nerr nd v).
Proof.
  destruct v as [a0 a1 t]. intros [H0 H1 L0 L1 L2]. simpl in *.
  unfold check_condition. simpl. rewrite H0, H1. simpl.
  rewrite (bool_decide_eq_true_2 _ L0), (bool_decide_eq_true_2 _ L1). simpl.
  destruct a0, a1; try discriminate. simpl.
  destruct t; rewrite (bool_decide_eq_true_2 _ L2); apply is_Ok_Ok.
Qed.

(** The constructor, inverted: what it checked and what it stored. *)
Lemma Sample_init_Ok sample_corr sample_err nd kwargs s :
  Sample_init sample_corr sample_err nd kwargs = Ok s →
  in_NDArray sample_corr = true ∧ in_NDArray sample_err = true ∧ 0 ≤ nd ∧
  corr s = ndarray false (data sample_corr) ∧
  err s = ndarray false (data sample_err) ∧
  non_decision s = nd ∧
  dict_mapM (λ _, check_condition (len sample_corr) (len sample_err) nd)
            kwargs = Ok (conditions s).
Proof.
  unfold Sample_init. intros H.
  inv_assert H. inv_assert H. inv_assert H.
  apply bool_decide_eq_true in Hassert1.
  inv_bind H. inv_bind H. inv_bind H. injection H as <-. simpl.
  apply set_readonly_Ok in Ha as [_ ->], Ha0 as [_ ->].
  by repeat split.
Qed.

Lemma Sample_init_wf sample_corr sample_err nd kwargs s :
  Sample_init sample_corr sample_err nd kwargs = Ok s → Sample_wf s.
Proof.
  intros H. apply Sample_init_Ok in H as (Hc & He & Hnd & Ec & Ee & En & Hd).
  split; rewrite ?Ec, ?Ee, ?En; try done.
  intros k v' Hk.
  destruct (dict_mapM_lookup _ _ _ _ _ Hd Hk) as (v & _ & Hv).
  apply check_condition_Ok in Hv as [[] ->]. by split.
Qed.

(** Conversely the constructor accepts whatever satisfies its checks. *)
Lemma Sample_init_is_Ok sample_corr sample_err nd kwargs :
  in_NDArray sample_corr = true → in_NDArray sample_err = true → 0 ≤ nd →
  (∀ k v, kwargs !! k = Some v →
          cond_wf (len sample_corr) (len sample_err) nd v) →
  is_Ok (Sample_init sample_corr sample_err nd kwargs).
Proof.
  intros Hc He Hnd Hall. unfold Sample_init.
  rewrite Hc, He. simpl. rewrite bool_decide_eq_true_2 by done. simpl.
  destruct sample_corr, sample_err; try discriminate. simpl.
  destruct (dict_mapM_is_Ok
    (λ _, check_condition (len (ndarray false items))
                          (len (ndarray false items0)) nd) kwargs)
    as [d ->]; [|apply is_Ok_Ok].
  intros k v Hk. apply check_condition_wf, (Hall k v Hk).
Qed.

(** ** Length *)

(** C4.  For every Sample that the constructor returns, the length is the
    number of correct times plus the number of error times plus the
    non-decision count, both as stored and as passed to the constructor. *)
Theorem Sample_len_spec sample_corr sample_err nd kwargs s :
  Sample_init sample_corr sample_err nd kwargs = Ok s →
  Sample_len s
    = Z.of_nat (len (corr s)) + Z.of_nat (len (err s)) + non_decision s
  ∧ Sample_len s
    = Z.of_nat (len sample_corr) + Z.of_nat (len sample_err) + nd.
Proof.
  intros H. split; [reflexivity|].
  apply Sample_init_Ok in H as (_ & _ & _ & Ec & Ee & En & _).
  unfold Sample_len. by rewrite Ec, Ee, En.
Qed.

(** The first Sample of [_generate]: three correct times, three error
    times, no non-decision trial; its length is 6. *)
Lemma Sample_len_spec_witness :
  ∃ s, Sample_init (np_asarray [1 # 10; 2 # 10; 3 # 10]%Q)
                   (np_asarray [2 # 10; 3 # 10; 4 # 10]%Q) 0 ∅ = Ok s
       ∧ Sample_len s = 6.
Proof.
  eexists. split; [reflexivity|].
  exact (proj2 (Sample_len_spec (np_asarray [1 # 10; 2 # 10; 3 # 10]%Q)
                                (np_asarray [2 # 10; 3 # 10; 4 # 10]%Q)
                                0 ∅ _ eq_refl)).
Defined.

(** ** Probabilities of the empty Sample *)

Lemma py_div_zero a : py_div a 0 = Raise ZeroDivisionError.
Proof. reflexivity. Qed.

Lemma prob_of_empty s :
  Sample_len s = 0 →
  prob_correct s = Raise ZeroDivisionError
  ∧ prob_error s = Raise ZeroDivisionError
  ∧ prob_undecided s = Raise ZeroDivisionError.
Proof.
  intros H. unfold prob_correct, prob_error, prob_undecided.
  by rewrite H, !py_div_zero.
Qed.

(** C10.  The constructor accepts empty correct and error times with a
    non-decision count of 0; the Sample has length 0, and on it
    [prob_correct], [prob_error] and [prob_undecided] raise
    [ZeroDivisionError]. *)
Theorem empty_Sample_probabilities :
  ∃ s, Sample_init (np_asarray []) (np_asarray []) 0 ∅ = Ok s
       ∧ Sample_len s = 0
       ∧ prob_correct s = Raise ZeroDivisionError
       ∧ prob_error s = Raise ZeroDivisionError
       ∧ prob_undecided s = Raise ZeroDivisionError.
Proof.
  eexists. split; [reflexivity|]. split; [reflexivity|].
  by apply prob_of_empty.
Qed.

(** ** Read-only storage *)

Lemma readonly_setitem a i x :
  readonly a = true → setitem a i x = Raise ValueError.
Proof. destruct a as [[] l|l]; simpl; congruence. Qed.

(** C6, as stated, fails: the constructor returns the Sample above, and
    the third sequence of its condition is not read-only; assigning to its
    element 0 succeeds. *)
Lemma third_sequence_not_readonly :
  ∃ s, sample_with_third = Ok s
       ∧ ¬ all_stored_readonly s
       ∧ ∃ v t, conditions s !! "color" = Some v ∧ c2 v = Some t
                ∧ setitem t 0 9 = Ok (pylist [9%Q]).
Proof.
  eexists. split; [reflexivity|]. split.
  - intros (_ & _ & H).
    destruct (H "color" _ eq_refl) as (_ & _ & Ht).
    specialize (Ht _ eq_refl). discriminate.
  - eexists _, _. split; [reflexivity|]. split; reflexivity.
Qed.

(** C6, amended.  After construction the correct times, the error times
    and the first two arrays of every condition are read-only numpy
    arrays, holding the values that were passed, and assigning to an
    element of any of them raises; the third element of a condition is
    stored as it was passed. *)
Theorem Sample_init_readonly sample_corr sample_err nd kwargs s :
  Sample_init sample_corr sample_err nd kwargs = Ok s →
  corr s = ndarray false (data sample_corr)
  ∧ err s = ndarray false (data sample_err)
  ∧ (∀ i x, setitem (corr s) i x = Raise ValueError)
  ∧ (∀ i x, setitem (err s) i x = Raise ValueError)
  ∧ ∀ k v, conditions s !! k = Some v →
      ∃ v0, kwargs !! k = Some v0
            ∧ c0 v = ndarray false (data (c0 v0))
            ∧ c1 v = ndarray false (data (c1 v0))
            ∧ c2 v = c2 v0
            ∧ (∀ i x, setitem (c0 v) i x = Raise ValueError)
            ∧ (∀ i x, setitem (c1 v) i x = Raise ValueError).
Proof.
  intros H. apply Sample_init_Ok in H as (_ & _ & _ & Ec & Ee & _ & Hd).
  rewrite Ec, Ee. repeat split; try done.
  intros k v Hk.
  destruct (dict_mapM_lookup _ _ _ _ _ Hd Hk) as (v0 & Hk0 & Hv).
  apply check_condition_Ok in Hv as [_ ->]. simpl.
  exists v0. by repeat split.
Qed.

Lemma Sample_init_readonly_witness :
  ∃ s, sample_with_third = Ok s
       ∧ ∀ i x, setitem (corr s) i x = Raise ValueError.
Proof.
  eexists. split; [reflexivity|].
  exact (proj1 (proj2 (proj2
    (Sample_init_readonly (np_asarray [1%Q]) (np_asarray []) 1
       {[ "color" := {| c0 := np_asarray [5%Q]; c1 := np_asarray [];
                        c2 := Some (pylist [7%Q]) |} ]} _ eq_refl)))).
Defined.

(** ** Iteration over one partition *)

Lemma getitem_lt {A} (l : list A) i :
  (i < length l)%nat → ∃ x, l !! i = Some x ∧ getitem l i = Ok x.
Proof.
  intros Hi. destruct (lookup_lt_is_Some_2 l i Hi) as [x Hx].
  exists x. unfold getitem. by rewrite Hx.
Qed.

Lemma getitem_ge {A} (l : list A) i :
  (length l ≤ i)%nat → getitem l i = Raise IndexError.
Proof. intros Hi. unfold getitem. by rewrite lookup_ge_None_2. Qed.

Lemma Sample_wf_partition_len s correct :
  Sample_wf s → Z.of_nat (len (partition s correct)) ≤ Sample_len s.
Proof.
  intros [_ _ Hnd _]. unfold Sample_len, partition. destruct correct; lia.
Qed.

(** Inside the partition [next] produces the time at the current index
    and moves on. *)
Lemma next_inside s i correct :
  Sample_wf s → (i < len (partition s correct))%nat →
  ∃ t cs, data (partition s correct) !! i = Some t
          ∧ Sample_Iter_next (iter_at s i correct)
            = (iter_at s (i + 1) correct, Ok (t, cs)).
Proof.
  intros Hwf Hi.
  pose proof (Sample_wf_partition_len s correct Hwf) as Hle.
  unfold Sample_Iter_next, iter_at. simpl.
  destruct (decide _) as [Heq|_]; [lia|].
  replace (i + 1 - 1)%nat with i by lia.
  destruct (getitem_lt (data (partition s correct)) i Hi) as (t & Ht & Hg).
  fold (partition s correct). rewrite Hg. simpl.
  destruct (dict_mapM_is_Ok
    (λ _ v, getitem (data (cond_ind correct v)) i) (conditions s))
    as [cs Hcs].
  { intros k v Hk. destruct (wf_conditions s Hwf k v Hk) as [_ _ L0 L1 _].
    destruct (getitem_lt (data (cond_ind correct v)) i) as (x & _ & Hx).
    - unfold partition, cond_ind, len in *. destruct correct; lia.
    - rewrite Hx. apply is_Ok_Ok. }
  rewrite Hcs. simpl. by exists t, cs.
Qed.

(** One position past the partition, [next] stops only if the partition
    is the whole Sample; otherwise it raises [IndexError]. *)
Lemma next_at_end s correct :
  Sample_Iter_next (iter_at s (len (partition s correct)) correct)
  = if decide (Z.of_nat (len (partition s correct)) = Sample_len s)
    then (iter_at s (len (partition s correct)) correct, Raise StopIteration)
    else (iter_at s (len (partition s correct) + 1) correct,
          Raise IndexError).
Proof.
  unfold Sample_Iter_next, iter_at. simpl.
  destruct (decide _) as [Heq|Hne]; [done|].
  f_equal. fold (partition s correct).
  rewrite getitem_ge; [done|]. unfold len. lia.
Qed.

Lemma exhaust_from s correct (n i fuel : nat) :
  Sample_wf s → (i + n = len (partition s correct))%nat → (n < fuel)%nat →
  ∃ l, exhaust fuel (iter_at s i correct)
       = Some (l, if decide (Z.of_nat (len (partition s correct))
                             = Sample_len s)
                  then None else Some IndexError)
       ∧ l.*1 = drop i (data (partition s correct)).
Proof.
  intros Hwf. revert i fuel. induction n as [|n IH]; intros i fuel Hn Hfuel.
  - destruct fuel as [|fuel]; [lia|]. simpl.
    assert (i = len (partition s correct)) as -> by lia.
    rewrite next_at_end. exists [].
    unfold len. rewrite drop_all. destruct (decide _); done.
  - destruct fuel as [|fuel]; [lia|]. simpl.
    destruct (next_inside s i correct Hwf) as (t & cs & Ht & ->); [lia|].
    destruct (IH (i + 1)%nat fuel) as (l & -> & Hl); [lia..|].
    exists ((t, cs) :: l). split; [done|].
    rewrite fmap_cons, Hl, (drop_S _ _ _ Ht).
    by replace (i + 1)%nat with (S i) by lia.
Qed.

(** When the partition is the whole Sample (the other partition is empty
    and there is no non-decision trial), the iteration produces one pair
    per trial and ends. *)
Lemma items_of_sole_partition s correct fuel :
  Sample_wf s → Z.of_nat (len (partition s correct)) = Sample_len s →
  (len (partition s correct) < fuel)%nat →
  ∃ l, exhaust fuel (Sample_items s correct) = Some (l, None)
       ∧ l.*1 = data (partition s correct).
Proof.
  intros Hwf Heq Hfuel.
  destruct (exhaust_from s correct (len (partition s correct)) 0 fuel)
    as (l & Hl & Hd); [done|lia|done|].
  rewrite decide_True in Hl by done. by exists l.
Qed.

(** C2.  The code breaks the claim: [next] compares its index with the
    length of the whole Sample, not with the length of the partition.
    Whenever the Sample has a trial outside the chosen partition, the
    iteration produces one pair for every trial of the partition and then
    lets an [IndexError] escape. *)
Theorem items_overruns_partition s correct fuel :
  Sample_wf s → Z.of_nat (len (partition s correct)) < Sample_len s →
  (len (partition s correct) < fuel)%nat →
  ∃ l, exhaust fuel (Sample_items s correct) = Some (l, Some IndexError)
       ∧ l.*1 = data (partition s correct).
Proof.
  intros Hwf Hlt Hfuel.
  destruct (exhaust_from s correct (len (partition s correct)) 0 fuel)
    as (l & Hl & Hd); [done|lia|done|].
  rewrite decide_False in Hl by lia. by exists l.
Qed.

(** On the first Sample of [_generate], [items(True)] produces the three
    correct times and then raises [IndexError]. *)
Lemma items_overruns_partition_witness :
  ∃ s l, Sample_init (np_asarray [1 # 10; 2 # 10; 3 # 10]%Q)
                     (np_asarray [2 # 10; 3 # 10; 4 # 10]%Q) 0 ∅ = Ok s
         ∧ exhaust 10 (Sample_items s true) = Some (l, Some IndexError)
         ∧ l.*1 = [1 # 10; 2 # 10; 3 # 10]%Q.
Proof.
  eexists.
  destruct (items_overruns_partition
              {| corr := ndarray false [1 # 10; 2 # 10; 3 # 10]%Q;
                 err := ndarray false [2 # 10; 3 # 10; 4 # 10]%Q;
                 non_decision := 0; conditions := ∅ |} true 10)
    as (l & Hl & Hd).
  - exact (Sample_init_wf (np_asarray [1 # 10; 2 # 10; 3 # 10]%Q)
             (np_asarray [2 # 10; 3 # 10; 4 # 10]%Q) 0 ∅ _ eq_refl).
  - reflexivity.
  - unfold partition, len. simpl. lia.
  - exists l. split; [reflexivity|]. split; [exact Hl | exact Hd].
Defined.

(** ** Subsetting *)

Lemma np_broadcast_same_length {A B C} (f : A → B → C) a b :
  length a = length b → np_broadcast f a b = Ok (zip_with f a b).
Proof. intros H. unfold np_broadcast. by rewrite decide_True. Qed.

Lemma compress_all_true {A} (l : list A) :
  compress l (replicate (length l) true) = l.
Proof. induction l as [|x l IH]; simpl; [done|by rewrite IH]. Qed.

Lemma sum_mask_nonneg m : 0 ≤ sum_mask m.
Proof. unfold sum_mask. lia. Qed.

Lemma sum_mask_ones n : 0 ≤ n → sum_mask (np_ones_bool n) = n.
Proof.
  intros Hn. unfold sum_mask, np_ones_bool.
  rewrite <-(Z2Nat.id n) at 2 by done. f_equal.
  induction (Z.to_nat n) as [|k IH]; [done|].
  rewrite replicate_S, filter_cons_True by done. simpl. by rewrite IH.
Qed.

(** The filtered conditions hold Python lists, which the constructor
    refuses: [subset] cannot return a Sample that has a condition. *)
Lemma check_filtered_condition ncorr nerr nd m v :
  check_condition ncorr nerr nd (filter_condition m v) = Raise AssertionError.
Proof. reflexivity. Qed.

Lemma Sample_init_filtered_conditions lc le m (d : gmap string cond) :
  d ≠ ∅ →
  Sample_init (np_asarray lc) (np_asarray le) (sum_mask (mask_non m))
              (filter_condition m <$> d)
  = Raise AssertionError.
Proof.
  intros Hd. unfold Sample_init. simpl.
  rewrite bool_decide_eq_true_2 by apply sum_mask_nonneg. simpl.
  rewrite (dict_mapM_Raise _ _ AssertionError); [done| |].
  - intros Hempty. by apply fmap_empty_inv in Hempty.
  - intros k v Hk. rewrite lookup_fmap in Hk.
    destruct (d !! k) as [v0|]; simpl in Hk; [|discriminate].
    injection Hk as <-. apply check_filtered_condition.
Qed.

Lemma Sample_subset_with_conditions s kwargs :
  conditions s ≠ ∅ →
  Sample_subset s kwargs
  = (_ ← subset_masks s kwargs; Raise AssertionError).
Proof.
  intros Hd. unfold Sample_subset.
  destruct (subset_masks s kwargs) as [m|e]; simpl; [|done].
  by apply Sample_init_filtered_conditions.
Qed.

Lemma Sample_subset_never_returns s kwargs :
  conditions s ≠ ∅ → ¬ is_Ok (Sample_subset s kwargs).
Proof.
  intros Hd. rewrite Sample_subset_with_conditions by done.
  destruct (subset_masks s kwargs); apply not_is_Ok_Raise.
Qed.

(** C9.  The code breaks the claim: [subset] wraps the filtered times in
    [np.asarray] but passes the filtered conditions as plain lists, which
    the constructor's own assertion rejects.  On every Sample that has a
    condition, [subset] without filters raises [AssertionError]. *)
Theorem subset_no_filter_raises s :
  conditions s ≠ ∅ → Sample_subset s [] = Raise AssertionError.
Proof. intros Hd. by rewrite Sample_subset_with_conditions. Qed.

Lemma subset_no_filter_raises_witness :
  ∃ s, sample_with_condition = Ok s
       ∧ Sample_subset s [] = Raise AssertionError.
Proof.
  eexists. split; [reflexivity|].
  apply subset_no_filter_raises. simpl.
  intros H. by apply (f_equal (λ d : gmap string cond, d !! "color")) in H.
Defined.

(** Without conditions the round trip does hold: [subset()] returns the
    Sample it was called on. *)
Lemma subset_no_filter_no_conditions sample_corr sample_err nd s :
  Sample_init sample_corr sample_err nd ∅ = Ok s →
  Sample_subset s [] = Ok s.
Proof.
  intros H. apply Sample_init_Ok in H as (_ & _ & Hnd & Ec & Ee & En & Hd).
  rewrite dict_mapM_empty in Hd. injection Hd as Hd.
  destruct s as [c e n d]. simpl in *. subst.
  unfold Sample_subset, subset_masks, initial_masks. simpl.
  unfold len. simpl. rewrite !compress_all_true, fmap_empty.
  rewrite sum_mask_ones by done.
  unfold Sample_init. simpl. rewrite bool_decide_eq_true_2 by done. simpl.
  by rewrite dict_mapM_empty.
Qed.

(** *** The masks *)

Lemma initial_masks_wf s : masks_wf s (initial_masks s).
Proof.
  split; simpl; unfold np_ones_bool; by rewrite length_replicate.
Qed.

Lemma update_masks_wf s k v test m :
  Sample_wf s → conditions s !! k = Some v → masks_wf s m →
  update_masks s k test m = Ok (updated_masks (non_decision s) test v m)
  ∧ masks_wf s (updated_masks (non_decision s) test v m).
Proof.
  intros Hwf Hk [Mc Me Mn].
  destruct (wf_conditions s Hwf k v Hk) as [_ _ L0 L1 L2].
  unfold update_masks, lookup_key, updated_masks. rewrite Hk. simpl.
  unfold np_logical_and.
  rewrite !np_broadcast_same_length
    by (rewrite length_map; unfold len in *; congruence). simpl.
  unfold cond_third, third_or_empty.
  destruct (decide (non_decision s = 0)) as [Hz|Hnz]; simpl.
  - split; [done|]. split; simpl;
      rewrite ?length_zip_with, ?length_map; unfold len in *; lia.
  - destruct (c2 v) as [t|]; [|done]. simpl.
    rewrite np_broadcast_same_length
      by (rewrite length_map; unfold len in *; lia). simpl.
    split; [done|]. split; simpl;
      rewrite ?length_zip_with, ?length_map; unfold len in *; lia.
Qed.

Lemma filter_step_wf s k v f m :
  Sample_wf s → conditions s !! k = Some v → masks_wf s m →
  filter_step s m (k, f) = Ok (stepped_masks (non_decision s) v m f)
  ∧ masks_wf s (stepped_masks (non_decision s) v m f).
Proof.
  intros Hwf Hk Hm. unfold filter_step, stepped_masks. simpl.
  destruct (has_call f).
  - destruct (update_masks_wf s k v (py_call f) m Hwf Hk Hm) as [-> Hm1].
    simpl. destruct (has_contains f); by apply update_masks_wf.
  - simpl. destruct (has_contains f); by apply update_masks_wf.
Qed.

(** On a valid Sample the loop of [subset] runs to its end whenever every
    filter names a condition. *)
Lemma filter_loop_wf s kwargs m :
  Sample_wf s → masks_wf s m →
  Forall (λ kv, is_Some (conditions s !! kv.1)) kwargs →
  ∃ m', filter_loop s m kwargs = Ok m' ∧ masks_wf s m'.
Proof.
  intros Hwf Hm Hall. revert m Hm.
  induction Hall as [|[k f] kwargs [v Hk] _ IH]; intros m Hm; simpl.
  - by exists m.
  - destruct (filter_step_wf s k v f m Hwf Hk Hm) as [-> Hm'].
    simpl. by apply IH.
Qed.

Lemma Sample_subset_raises s kwargs :
  Sample_wf s → conditions s ≠ ∅ →
  Forall (λ kv, is_Some (conditions s !! kv.1)) kwargs →
  Sample_subset s kwargs = Raise AssertionError.
Proof.
  intros Hwf Hd Hall. rewrite Sample_subset_with_conditions by done.
  unfold subset_masks.
  by destruct (filter_loop_wf s kwargs (initial_masks s) Hwf
                 (initial_masks_wf s) Hall) as (m' & -> & _).
Qed.

Lemma zip_with_andb_false (m : list bool) {A} (l : list A) :
  length m = length l →
  zip_with andb m (map (λ _, false) l) = replicate (length l) false.
Proof.
  revert l. induction m as [|b m IH]; intros [|x l] H; try done.
  simpl in *. rewrite IH by lia. by rewrite andb_false_r.
Qed.

(** C1.  The code breaks the claim in two ways.  The test on
    [__contains__] is an [if], not an [elif], so after the predicate has
    been applied the [else] branch compares every value with the function
    itself: all three masks come out all false, whatever the predicate.
    And the filtered conditions are passed to the constructor as plain
    lists, which it rejects: the call raises [AssertionError]. *)
Theorem subset_predicate_filter s k v f :
  Sample_wf s → conditions s !! k = Some v →
  subset_masks s [(k, PyFun f)]
  = Ok {| mask_corr := replicate (len (corr s)) false;
          mask_err := replicate (len (err s)) false;
          mask_non := replicate (Z.to_nat (non_decision s)) false |}
  ∧ Sample_subset s [(k, PyFun f)] = Raise AssertionError.
Proof.
  intros Hwf Hk. split.
  - unfold subset_masks. simpl.
    destruct (filter_step_wf s k v (PyFun f) (initial_masks s) Hwf Hk
                (initial_masks_wf s)) as [-> _]. simpl.
    destruct (wf_conditions s Hwf k v Hk) as [_ _ L0 L1 L2].
    unfold stepped_masks, updated_masks. simpl. do 2 f_equal.
    + rewrite zip_with_andb_false, <-?L0; [done|].
      rewrite length_zip_with, length_replicate, length_map.
      unfold len in *. lia.
    + rewrite zip_with_andb_false, <-?L1; [done|].
      rewrite length_zip_with, length_replicate, length_map.
      unfold len in *. lia.
    + destruct (decide (non_decision s = 0)) as [->|Hnz]; [done|].
      unfold third_or_empty. destruct (c2 v) as [t|]; [|done].
      rewrite zip_with_andb_false.
      * f_equal. unfold len in *. lia.
      * unfold np_ones_bool.
        rewrite length_zip_with, length_replicate, length_map.
        unfold len in *. lia.
  - apply Sample_subset_raises; [done| |].
    + intros Hd. by rewrite Hd, lookup_empty in Hk.
    + constructor; [by exists v|constructor].
Qed.

(** On a Sample with one correct trial whose [color] is 1, the predicate
    "equals 1" keeps nothing and the call raises. *)
Lemma subset_predicate_filter_witness :
  ∃ s, sample_with_condition = Ok s
       ∧ subset_masks s [("color", PyFun (λ x, Qeq_bool x 1))]
         = Ok {| mask_corr := [false]; mask_err := []; mask_non := [] |}
       ∧ Sample_subset s [("color", PyFun (λ x, Qeq_bool x 1))]
         = Raise AssertionError.
Proof.
  eexists. split; [reflexivity|].
  refine (subset_predicate_filter _ "color" _ (λ x, Qeq_bool x 1) _ _).
  - exact (Sample_init_wf _ _ _ _ _ (eq_refl : sample_with_condition = Ok _)).
  - reflexivity.
Defined.

(** ** Combinations of condition values *)

Lemma mapM_result_Ok {A B} (f : A → result B) (l : list A) :
  Forall (λ x, is_Ok (f x)) l →
  ∃ r, mapM f l = Ok r ∧ Forall2 (λ x y, f x = Ok y) l r.
Proof.
  induction 1 as [|x l [y Hy] _ (r & Hr & IH)]; simpl.
  - exists []. by split.
  - exists (y :: r). rewrite Hy. simpl. rewrite Hr. simpl.
    split; [done|by constructor].
Qed.

Lemma py_set_nonempty l : l ≠ [] → py_set l ≠ [].
Proof. by destruct l. Qed.

Lemma product_nonempty {A} (ls : list (list A)) :
  Forall (λ l, l ≠ []) ls → product ls ≠ [].
Proof.
  induction 1 as [|l ls Hl _ IH]; simpl; [done|].
  destruct l as [|x l]; [done|].
  destruct (product ls) as [|p ps]; [done|]. done.
Qed.

Lemma elem_of_keys {A} (d : gmap string A) k :
  k ∈ keys d ↔ is_Some (d !! k).
Proof.
  unfold keys. rewrite list_elem_of_fmap. split.
  - intros ([k' v] & -> & Hin). apply elem_of_map_to_list in Hin. by exists v.
  - intros [v Hv]. exists (k, v). split; [done|].
    by apply elem_of_map_to_list.
Qed.

Lemma zip_keys_Forall {A B} (P : string → Prop) (names : list string)
    (l : list A) (g : A → B) :
  Forall P names → Forall (λ kv : string * B, P kv.1) (zip names (g <$> l)).
Proof.
  intros H. revert l. induction H as [|n names Hn _ IH]; intros [|x l];
    simpl; constructor; auto.
Qed.

Lemma kept_names_are_conditions s req :
  Forall (λ n, is_Some (conditions s !! n)) (kept_names s req).
Proof.
  apply Forall_forall. intros n Hn. apply elem_of_keys.
  destruct req as [r|]; simpl in Hn; [|done].
  by apply list_elem_of_filter in Hn as [_ ?].
Qed.

Lemma observed_values_nonempty s k v :
  Sample_wf s → conditions s !! k = Some v →
  (0 < len (corr s) + len (err s))%nat → observed_values v ≠ [].
Proof.
  intros Hwf Hk Hpos.
  destruct (wf_conditions s Hwf k v Hk) as [_ _ L0 L1 _].
  apply py_set_nonempty. intros Hnil.
  apply (f_equal length) in Hnil. rewrite length_app in Hnil.
  unfold len in *. simpl in Hnil. lia.
Qed.

(** C7.  The code breaks the claim, through the defect of [subset]: on a
    valid Sample with a condition and a correct or error trial, the first
    combination is tested with [subset], which raises [AssertionError], and
    nothing is returned, whatever [required_conditions] is. *)
Theorem condition_combinations_raises s required_conditions :
  Sample_wf s → conditions s ≠ ∅ →
  (0 < len (corr s) + len (err s))%nat →
  condition_combinations s required_conditions = Raise AssertionError.
Proof.
  intros Hwf Hd Hpos. unfold condition_combinations.
  fold (kept_names s required_conditions).
  pose proof (kept_names_are_conditions s required_conditions) as Hnames.
  destruct (mapM_result_Ok
    (λ c, observed_values <$> lookup_key (conditions s) c)
    (kept_names s required_conditions)) as (vals & -> & Hvals).
  { eapply Forall_impl; [exact Hnames|]. intros n [v Hv].
    unfold lookup_key. rewrite Hv. apply is_Ok_Ok. }
  simpl.
  assert (Forall (λ l, l ≠ []) vals) as Hne.
  { clear -Hwf Hpos Hvals.
    induction Hvals as [|n l names vals Hn _ IH]; constructor; [|done].
    unfold lookup_key in Hn.
    destruct (conditions s !! n) as [v|] eqn:Hv; simpl in Hn; [|done].
    injection Hn as <-. by eapply observed_values_nonempty. }
  apply product_nonempty in Hne.
  destruct (product vals) as [|p ps]; [done|]. simpl.
  unfold combination_step.
  rewrite Sample_subset_raises; [done..|].
  by apply (zip_keys_Forall (λ n, is_Some (conditions s !! n))).
Qed.

(** On the Sample with one correct trial whose [color] is 1 the claim
    expects the single combination [color = 1]. *)
Lemma condition_combinations_raises_witness :
  ∃ s, sample_with_condition = Ok s
       ∧ condition_combinations s None = Raise AssertionError.
Proof.
  eexists. split; [reflexivity|].
  apply condition_combinations_raises.
  - exact (Sample_init_wf _ _ _ _ _ (eq_refl : sample_with_condition = Ok _)).
  - simpl. intros H.
    by apply (f_equal (λ d : gmap string cond, d !! "color")) in H.
  - simpl. lia.
Defined.

(** Without conditions there is one combination, the empty one. *)
Lemma condition_combinations_no_conditions sample_corr sample_err nd s req :
  Sample_init sample_corr sample_err nd ∅ = Ok s →
  condition_combinations s req = Ok [∅].
Proof.
  intros H. pose proof (subset_no_filter_no_conditions _ _ _ _ H) as Hsub.
  apply Sample_init_Ok in H as (_ & _ & _ & _ & _ & _ & Hd).
  rewrite dict_mapM_empty in Hd. injection Hd as Hd.
  unfold condition_combinations, condition_names, keys.
  rewrite <-Hd, map_to_list_empty. simpl.
  destruct req; simpl; unfold combination_step; simpl;
    rewrite Hsub; simpl; destruct (decide (Sample_len s ≠ 0)); done.
Qed.

(** ** Construction from a table *)

Lemma mapM_result_length {A B} (f : A → result B) (l : list A) r :
  mapM f l = Ok r → length r = length l.
Proof.
  revert r. induction l as [|x l IH]; intros r H; simpl in H.
  - by injection H as <-.
  - inv_bind H. inv_bind H. injection H as <-. simpl. f_equal. by apply IH.
Qed.

Lemma dict_of_list_size_from {A} (l : list (string * A)) (acc : gmap string A) :
  (size (foldl (λ acc kv, <[kv.1:=kv.2]> acc) acc l) ≤ size acc + length l)%nat.
Proof.
  revert acc. induction l as [|[k v] l IH]; intros acc; simpl; [lia|].
  etrans; [apply IH|]. rewrite map_size_insert.
  destruct (acc !! k); simpl; lia.
Qed.

Lemma dict_of_list_size {A} (l : list (string * A)) :
  (size (dict_of_list l) ≤ length l)%nat.
Proof.
  unfold dict_of_list. etrans; [apply dict_of_list_size_from|].
  by rewrite map_size_empty.
Qed.

Lemma length_keys {A} (d : gmap string A) : length (keys d) = size d.
Proof. unfold keys. by rewrite length_fmap, length_map_to_list. Qed.

(** The Sample built by the function body has at most two condition names
    fewer than [column_names]: the names are taken from [column_names[2:]]. *)
Lemma from_numpy_array_body_names d column_names ret :
  from_numpy_array_body d column_names = Ok ret →
  (length (condition_names ret) ≤ length column_names - 2)%nat.
Proof.
  unfold from_numpy_array_body. intros H.
  inv_bind H. inv_bind H. inv_bind H.
  apply Sample_init_Ok in H as (_ & _ & _ & _ & _ & _ & Hd).
  apply dict_mapM_dom in Hd.
  unfold condition_names. rewrite length_keys, <-size_dom, Hd, size_dom.
  etrans; [apply dict_of_list_size|].
  apply mapM_result_length in Ha0. rewrite Ha0.
  unfold enumerate. by rewrite length_imap, length_drop.
Qed.

(** [pt] changes the representation of the numbers, and leaves the
    values that fit a 64-bit integer as they are. *)
Lemma py_int_whole (v : Q) (z : Z) : (v == inject_Z z)%Q → py_int v = z.
Proof.
  destruct v as [n d]. unfold Qeq, py_int. simpl. intros H.
  rewrite Z.mul_1_r in H. subst n. apply Z.quot_mul. lia.
Qed.

Lemma astype_int64_whole (v : Q) (z : Z) :
  (v == inject_Z z)%Q → fits_int64 v → astype_int64 v = z.
Proof.
  unfold fits_int64, astype_int64. intros Hv Hfit.
  rewrite (py_int_whole _ _ Hv) in *. by rewrite decide_True.
Qed.

Lemma pt_values (l : list Q) :
  Forall fits_int64 l → Forall2 Qeq (data (pt l)) l.
Proof.
  intros Hfit. unfold pt. simpl.
  destruct (forallb _ l) eqn:Hall; simpl.
  - rewrite forallb_forall in Hall.
    induction Hfit as [|v l Hv Hl IH]; constructor.
    + assert (v == inject_Z (np_round v))%Q as Hw
        by (apply Qeq_bool_eq, Hall; by left).
      by rewrite (astype_int64_whole _ _ Hw Hv).
    + apply IH. intros x Hx. apply Hall. by right.
  - apply Forall_Forall2_diag, Forall_true. intros x. reflexivity.
Qed.

(** A whole value beyond the range wraps to the least integer. *)
Lemma pt_out_of_range :
  data (pt [inject_Z (2 ^ 63)]) = [inject_Z (- 2 ^ 63)].
Proof. reflexivity. Qed.

(** When the body returns, the correct times are the column-0 values of
    the rows flagged 1, the error times those of the other rows, both
    passed through [pt], and there is no non-decision trial. *)
Lemma from_numpy_array_body_times d column_names s :
  from_numpy_array_body d column_names = Ok s →
  ∃ flag rt, column d 1 = Ok flag ∧ column d 0 = Ok rt
    ∧ data (corr s) = data (pt (compress rt (map astype_bool flag)))
    ∧ data (err s)
      = data (pt (compress rt (map (λ x, astype_bool (1 - x)%Q) flag)))
    ∧ non_decision s = 0.
Proof.
  unfold from_numpy_array_body. intros H.
  inv_bind H. inv_bind H. inv_bind H.
  apply Sample_init_Ok in H as (_ & _ & _ & Ec & Ee & En & _).
  exists a, a1. by rewrite Ec, Ee.
Qed.

(** C3.  The code breaks the claim and its own [@ensures]: the decorators
    demand as many names as condition columns and as many condition names
    in the result, but the body skips the first two names.  Given at least
    one name, the function never returns a Sample. *)
Theorem from_numpy_array_never_returns d column_names :
  column_names ≠ [] → ¬ is_Ok (from_numpy_array d column_names).
Proof.
  intros Hne [ret H]. unfold from_numpy_array in H.
  destruct (from_numpy_array_requires d column_names); [|done].
  inv_bind H.
  destruct (from_numpy_array_ensures column_names a) eqn:Hens; [|done].
  apply bool_decide_eq_true in Hens.
  apply from_numpy_array_body_names in Ha.
  destruct column_names; [done|]. simpl in *. lia.
Qed.

Lemma from_numpy_array_never_returns_witness :
  ¬ is_Ok (from_numpy_array table_with_color ["color"]).
Proof. apply from_numpy_array_never_returns. discriminate. Defined.

(** On that table the entry conditions hold, the body returns a Sample
    without any condition name, and the exit condition fails. *)
Lemma from_numpy_array_color_example :
  from_numpy_array_requires table_with_color ["color"] = true
  ∧ (condition_names <$> from_numpy_array_body table_with_color ["color"])
    = Ok []
  ∧ from_numpy_array table_with_color ["color"] = Raise ExitConditionsError.
Proof. repeat split; reflexivity. Qed.

(** With two columns and no names, the rows are split by the flag. *)
Lemma from_numpy_array_two_columns :
  ∃ s, from_numpy_array {| shape1 := 2; rows := [[1 # 2; 1]; [3 # 10; 0]]%Q |}
                        [] = Ok s
       ∧ data (corr s) = [1 # 2]%Q ∧ data (err s) = [3 # 10]%Q
       ∧ non_decision s = 0 ∧ condition_names s = [].
Proof. eexists. repeat split; reflexivity. Qed.

(** ** Addition *)

(** *** The order on names used by [sorted] *)

Lemma string_compare_trans (a b c : string) :
  String.compare a b ≠ Gt → String.compare b c ≠ Gt →
  String.compare a c ≠ Gt.
Proof.
  revert b c. induction a as [|x a IH]; intros [|y b] [|z c]; simpl; try done.
  unfold Ascii.compare.
  destruct (N.compare_spec (Ascii.N_of_ascii x) (Ascii.N_of_ascii y)),
           (N.compare_spec (Ascii.N_of_ascii y) (Ascii.N_of_ascii z)),
           (N.compare_spec (Ascii.N_of_ascii x) (Ascii.N_of_ascii z));
    try done; try lia; eauto.
Qed.

Lemma string_le_compare a b : string_le a b ↔ String.compare a b ≠ Gt.
Proof.
  unfold string_le, String.leb. by destruct (String.compare a b).
Qed.

#[global] Instance string_le_trans : Transitive string_le.
Proof.
  intros a b c. rewrite !string_le_compare. apply string_compare_trans.
Qed.

#[global] Instance string_le_total : Total string_le.
Proof. intros a b. apply String.leb_total. Qed.

#[global] Instance string_le_antisymm : AntiSymm (=) string_le.
Proof. intros a b. apply String.leb_antisym. Qed.

Lemma NoDup_keys {A} (d : gmap string A) : NoDup (keys d).
Proof. apply NoDup_fst_map_to_list. Qed.

(** [sorted(a.keys()) == sorted(b.keys())] compares the sets of keys. *)
Lemma sorted_keys_eq_dom {A B} (d1 : gmap string A) (d2 : gmap string B) :
  sorted_keys d1 = sorted_keys d2 ↔ dom d1 = dom d2.
Proof.
  unfold sorted_keys. split.
  - intros Heq. apply set_eq. intros k.
    rewrite !elem_of_dom, <-!elem_of_keys.
    rewrite <-(merge_sort_Permutation string_le (keys d1)).
    rewrite <-(merge_sort_Permutation string_le (keys d2)).
    by rewrite Heq.
  - intros Hdom. apply (Sorted_unique string_le).
    + apply Sorted_merge_sort, _.
    + apply Sorted_merge_sort, _.
    + rewrite !merge_sort_Permutation.
      apply NoDup_Permutation; [apply NoDup_keys..|].
      intros k. by rewrite !elem_of_keys, <-!elem_of_dom, Hdom.
Qed.

(** *** numpy addition *)

Lemma np_broadcast_spec {A B C} (f : A → B → C) a b :
  match broadcast_len (length a) (length b) with
  | Some n => ∃ r, np_broadcast f a b = Ok r ∧ length r = n
  | None => np_broadcast f a b = Raise ValueError
  end.
Proof.
  unfold broadcast_len, np_broadcast.
  destruct (decide (length a = length b)) as [Heq|Hne].
  { eexists. split; [done|]. rewrite length_zip_with. lia. }
  destruct a as [|x [|x' a]], b as [|y [|y' b]]; simpl in *; try done;
    repeat case_decide; try lia;
    try (eexists; split; [done|]; simpl; by rewrite ?length_map).
Qed.

Lemma py_add_arrays a b :
  in_NDArray a = true → in_NDArray b = true →
  py_add a b = np_asarray <$> np_broadcast np_add (data a) (data b).
Proof. by destruct a, b. Qed.

Lemma py_add_arrays_spec a b :
  in_NDArray a = true → in_NDArray b = true →
  match broadcast_len (len a) (len b) with
  | Some n => ∃ r, py_add a b = Ok r ∧ in_NDArray r = true ∧ len r = n
  | None => py_add a b = Raise ValueError
  end.
Proof.
  intros Ha Hb. rewrite py_add_arrays by done.
  pose proof (np_broadcast_spec np_add (data a) (data b)) as H.
  unfold len. destruct (broadcast_len _ _).
  - destruct H as (r & -> & Hr). by exists (np_asarray r).
  - by rewrite H.
Qed.

Lemma py_add_arrays_same_length a b :
  in_NDArray a = true → in_NDArray b = true → len a = len b →
  py_add a b = Ok (np_asarray (zip_with np_add (data a) (data b))).
Proof.
  intros Ha Hb Hlen. rewrite py_add_arrays by done.
  by rewrite np_broadcast_same_length.
Qed.

(** *** Non-decision values kept as lists *)

Lemma third_or_empty_list s k v :
  Sample_wf s → thirds_are_lists s → conditions s !! k = Some v →
  third_or_empty v = pylist (data (third_or_empty v))
  ∧ Z.of_nat (len (third_or_empty v)) = non_decision s.
Proof.
  intros Hwf Hl Hk. destruct (wf_conditions s Hwf k v Hk) as [_ _ _ _ L2].
  unfold third_or_empty. destruct (c2 v) as [t|] eqn:Ht.
  - split; [|done]. specialize (Hl k v t Hk Ht). by destruct t.
  - split; [done|]. unfold len. simpl. lia.
Qed.

(** *** The sum of two Samples *)

(** [sorted] wipes out the order of a listing. *)
Lemma sorted_names_Permutation (l1 l2 : list string) :
  l1 ≡ₚ l2 → sorted_names l1 = sorted_names l2.
Proof.
  intros Hp. unfold sorted_names. apply (Sorted_unique string_le).
  - apply Sorted_merge_sort, _.
  - apply Sorted_merge_sort, _.
  - by rewrite !merge_sort_Permutation.
Qed.

(** Whatever the order of the two listings of keys, the assertion of
    [__add__] compares the sets of keys. *)
Lemma sorted_names_eq_dom {A B} (d1 : gmap string A) (d2 : gmap string B)
    (ks ko : list string) :
  ks ≡ₚ keys d1 → ko ≡ₚ keys d2 →
  sorted_names ks = sorted_names ko ↔ dom d1 = dom d2.
Proof.
  intros Hks Hko.
  rewrite (sorted_names_Permutation _ _ Hks).
  rewrite (sorted_names_Permutation _ _ Hko).
  apply sorted_keys_eq_dom.
Qed.

Section add.
Variables s o : Sample.
Variables ks ko : list string.
Hypothesis Hs : Sample_wf s.
Hypothesis Ho : Sample_wf o.
Hypothesis Ls : thirds_are_lists s.
Hypothesis Lo : thirds_are_lists o.
Hypothesis Pks : ks ≡ₚ keys (conditions s).
Hypothesis Pko : ko ≡ₚ keys (conditions o).

Lemma add_condition_wf k vs nc ne :
  dom (conditions s) = dom (conditions o) →
  conditions s !! k = Some vs →
  broadcast_len (len (corr s)) (len (corr o)) = Some nc →
  broadcast_len (len (err s)) (len (err o)) = Some ne →
  ∃ vr, add_condition (conditions o) k vs = Ok vr
        ∧ cond_wf nc ne (non_decision s + non_decision o) vr.
Proof.
  intros Hdom Hk Hnc Hne.
  assert (is_Some (conditions o !! k)) as [vo Hko].
  { apply elem_of_dom. rewrite <-Hdom. apply elem_of_dom. eauto. }
  destruct (wf_conditions s Hs k vs Hk) as [S0 S1 SL0 SL1 _].
  destruct (wf_conditions o Ho k vo Hko) as [O0 O1 OL0 OL1 _].
  destruct (third_or_empty_list s k vs Hs Ls Hk) as [Ts TLs].
  destruct (third_or_empty_list o k vo Ho Lo Hko) as [To TLo].
  unfold add_condition, lookup_key. rewrite Hko. simpl.
  pose proof (py_add_arrays_spec (c0 vs) (c0 vo) S0 O0) as H0.
  rewrite SL0, OL0, Hnc in H0. destruct H0 as (a0 & -> & A0 & AL0).
  pose proof (py_add_arrays_spec (c1 vs) (c1 vo) S1 O1) as H1.
  rewrite SL1, OL1, Hne in H1. destruct H1 as (a1 & -> & A1 & AL1).
  simpl. rewrite Ts, To. simpl. eexists. split; [done|].
  split; simpl; try done.
  unfold len in *. simpl. rewrite length_app. lia.
Qed.

(** With the same names, [__add__] returns as soon as numpy can add the
    correct times and the error times, and raises [ValueError] if not. *)
Lemma Sample_add_listed_same_names :
  dom (conditions s) = dom (conditions o) →
  match broadcast_len (len (corr s)) (len (corr o)),
        broadcast_len (len (err s)) (len (err o)) with
  | Some _, Some _ => is_Ok (Sample_add_listed ks ko s o)
  | _, _ => Sample_add_listed ks ko s o = Raise ValueError
  end.
Proof.
  intros Hdom. unfold Sample_add_listed.
  rewrite bool_decide_eq_true_2
    by by apply (sorted_names_eq_dom _ _ _ _ Pks Pko).
  simpl.
  pose proof (py_add_arrays_spec (corr s) (corr o)
                (wf_corr_array s Hs) (wf_corr_array o Ho)) as Hc.
  pose proof (py_add_arrays_spec (err s) (err o)
                (wf_err_array s Hs) (wf_err_array o Ho)) as He.
  destruct (broadcast_len (len (corr s)) (len (corr o))) as [nc|] eqn:Hnc;
    [|by rewrite Hc].
  destruct Hc as (c & -> & Ac & Lc). simpl.
  destruct (broadcast_len (len (err s)) (len (err o))) as [ne|] eqn:Hne;
    [|by rewrite He].
  destruct He as (e & -> & Ae & Le). simpl.
  destruct (dict_mapM_is_Ok (add_condition (conditions o)) (conditions s))
    as [d Hd].
  { intros k vs Hk.
    destruct (add_condition_wf k vs nc ne Hdom Hk Hnc Hne) as (vr & -> & _).
    apply is_Ok_Ok. }
  rewrite Hd. simpl.
  apply Sample_init_is_Ok; try done.
  - pose proof (wf_non_decision s Hs). pose proof (wf_non_decision o Ho). lia.
  - intros k vr Hkr.
    destruct (dict_mapM_lookup _ _ _ _ _ Hd Hkr) as (vs & Hk & Hvr).
    destruct (add_condition_wf k vs nc ne Hdom Hk Hnc Hne) as (vr' & E & W).
    rewrite Lc, Le. congruence.
Qed.

Lemma Sample_add_listed_not_assertion :
  dom (conditions s) = dom (conditions o) →
  Sample_add_listed ks ko s o ≠ Raise AssertionError.
Proof.
  intros Hdom. pose proof (Sample_add_listed_same_names Hdom) as H.
  destruct (broadcast_len (len (corr s)) (len (corr o)));
    [destruct (broadcast_len (len (err s)) (len (err o)))|];
    try (rewrite H; discriminate).
  destruct H as [r ->]. discriminate.
Qed.

Lemma Sample_add_listed_unlike_names :
  dom (conditions s) ≠ dom (conditions o) →
  Sample_add_listed ks ko s o = Raise AssertionError.
Proof.
  intros Hdom. unfold Sample_add_listed.
  rewrite bool_decide_eq_false_2; [done|].
  by rewrite (sorted_names_eq_dom _ _ _ _ Pks Pko).
Qed.

(** With the same names and the same numbers of trials, the sum is the
    Sample of the element-wise sums and the concatenated lists. *)
Lemma Sample_add_listed_sum :
  dom (conditions s) = dom (conditions o) →
  len (corr s) = len (corr o) → len (err s) = len (err o) →
  ∃ r, Sample_add_listed ks ko s o = Ok r
       ∧ Sample_wf r
       ∧ corr r = ndarray false (zip_with np_add (data (corr s))
                                               (data (corr o)))
       ∧ err r = ndarray false (zip_with np_add (data (err s))
                                              (data (err o)))
       ∧ non_decision r = non_decision s + non_decision o
       ∧ dom (conditions r) = dom (conditions s)
       ∧ ∀ k vs vo, conditions s !! k = Some vs →
                    conditions o !! k = Some vo →
                    conditions r !! k = Some (added_condition vs vo).
Proof.
  intros Hdom Lc Le.
  pose proof (Sample_add_listed_same_names Hdom) as Hok.
  unfold broadcast_len in Hok. rewrite !decide_True in Hok by done.
  destruct Hok as [r Hr]. exists r. split; [done|].
  unfold Sample_add_listed in Hr. inv_assert Hr.
  rewrite (py_add_arrays_same_length (corr s) (corr o)) in Hr
    by (try apply wf_corr_array; done).
  rewrite (py_add_arrays_same_length (err s) (err o)) in Hr
    by (try apply wf_err_array; done).
  simpl in Hr. inv_bind Hr.
  pose proof (Sample_init_wf _ _ _ _ _ Hr) as Hwf.
  apply Sample_init_Ok in Hr as (_ & _ & _ & Ec & Ee & En & Hd).
  do 4 (split; [done|]). split.
  - by rewrite (dict_mapM_dom _ _ _ Hd), (dict_mapM_dom _ _ _ Ha).
  - intros k vs vo Hks Hko.
    pose proof (dict_mapM_Ok _ _ _ Ha k) as H1. rewrite Hks in H1.
    destruct H1 as (v1 & Hv1 & Hk1).
    pose proof (dict_mapM_Ok _ _ _ Hd k) as H2. rewrite Hk1 in H2.
    destruct H2 as (v2 & Hv2 & ->). f_equal.
    apply check_condition_Ok in Hv2 as [_ ->].
    destruct (wf_conditions s Hs k vs Hks) as [S0 S1 SL0 SL1 _].
    destruct (wf_conditions o Ho k vo Hko) as [O0 O1 OL0 OL1 _].
    destruct (third_or_empty_list s k vs Hs Ls Hks) as [Ts _].
    destruct (third_or_empty_list o k vo Ho Lo Hko) as [To _].
    unfold add_condition, lookup_key in Hv1. rewrite Hko in Hv1.
    simpl in Hv1.
    rewrite (py_add_arrays_same_length (c0 vs) (c0 vo)) in Hv1
      by congruence.
    rewrite (py_add_arrays_same_length (c1 vs) (c1 vo)) in Hv1
      by congruence.
    rewrite Ts, To in Hv1. simpl in Hv1. by injection Hv1 as <-.
Qed.
End add.


Lemma Sample_add_not_assertion s o :
  Sample_wf s → Sample_wf o → thirds_are_lists s → thirds_are_lists o →
  dom (conditions s) = dom (conditions o) →
  Sample_add s o ≠ Raise AssertionError.
Proof.
  intros Hs Ho Ls Lo. by apply Sample_add_listed_not_assertion.
Qed.

Lemma Sample_add_unlike_names s o :
  dom (conditions s) ≠ dom (conditions o) →
  Sample_add s o = Raise AssertionError.
Proof. by apply Sample_add_listed_unlike_names. Qed.

Lemma Sample_add_sum s o :
  Sample_wf s → Sample_wf o → thirds_are_lists s → thirds_are_lists o →
  dom (conditions s) = dom (conditions o) →
  len (corr s) = len (corr o) → len (err s) = len (err o) →
  ∃ r, Sample_add s o = Ok r
       ∧ Sample_wf r
       ∧ corr r = ndarray false (zip_with np_add (data (corr s))
                                               (data (corr o)))
       ∧ err r = ndarray false (zip_with np_add (data (err s))
                                              (data (err o)))
       ∧ non_decision r = non_decision s + non_decision o
       ∧ dom (conditions r) = dom (conditions s)
       ∧ ∀ k vs vo, conditions s !! k = Some vs →
                    conditions o !! k = Some vo →
                    conditions r !! k = Some (added_condition vs vo).
Proof.
  intros Hs Ho Ls Lo. by apply Sample_add_listed_sum.
Qed.







Lemma sample_three_kinds_wf : Sample_wf sample_three_kinds.
Proof.
  exact (Sample_init_wf (np_asarray [1; 2]%Q) (np_asarray [3%Q]) 1
           {[ "color" := {| c0 := np_asarray [5; 6]%Q;
                            c1 := np_asarray [5%Q];
                            c2 := Some (pylist [7%Q]) |} ]}
           sample_three_kinds eq_refl).
Defined.


(** Operands whose numbers of trials differ and are not 1 cannot be
    added: numpy raises [ValueError]. *)
Lemma Sample_add_length_mismatch :
  ∃ s o, Sample_init (np_asarray [1; 2]%Q) (np_asarray []) 0 ∅ = Ok s
         ∧ Sample_init (np_asarray [1; 2; 3]%Q) (np_asarray []) 0 ∅ = Ok o
         ∧ Sample_add s o = Raise ValueError.
Proof. eexists _, _. repeat split; reflexivity. Qed.

(** ** The time domain *)


Lemma Qfloor_unique (x : Q) (z : Z) :
  (inject_Z z <= x)%Q → (x < inject_Z (z + 1))%Q → Qfloor x = z.
Proof.
  intros Hle Hlt.
  pose proof (Qfloor_resp_le _ _ Hle) as H1. rewrite Qfloor_Z in H1.
  pose proof (Qfloor_le x) as H2.
  assert (inject_Z (Qfloor x) < inject_Z (z + 1))%Q as H3
    by (eapply Qle_lt_trans; eassumption).
  rewrite <-Zlt_Qlt in H3. lia.
Qed.

Lemma Qfloor_succ (x : Q) : Qfloor (x + 1) = Qfloor x + 1.
Proof.
  pose proof (Qfloor_le x) as Hle. pose proof (Qlt_floor x) as Hlt.
  rewrite inject_Z_plus in Hlt. change (inject_Z 1) with 1%Q in Hlt.
  apply Qfloor_unique; rewrite !inject_Z_plus; change (inject_Z 1) with 1%Q;
    lra.
Qed.





Section t_domain.
Variables dt T_dur : Q.
Hypothesis dt_pos : (0 < dt)%Q.
Hypothesis T_pos : (0 < T_dur)%Q.









End t_domain.


(** The same with the doubles nearest to 0.1 and 0.3: their quotient is
    the double just below 3, so that there are three points 0.15 apart,
    where the quotient of 0.1 and 0.3 themselves is 3 and would give four
    points. *)
Lemma t_domain_tenths :
  Qfloor ((3 # 10) / (1 # 10)) + 1 = 4
  ∧ quotient_double (round_double (1 # 10)) (round_double (3 # 10))
    = (6755399441055743 # 2251799813685248)%Q
  ∧ points_asked (round_double (1 # 10)) (round_double (3 # 10)) = 3
  ∧ ∃ l, t_domain (round_double (1 # 10)) (round_double (3 # 10)) = Ok l
         ∧ length l = 3%nat
         ∧ evenly_spaced (round_double (3 # 10) / 2) l
         ∧ ¬ evenly_spaced (round_double (1 # 10)) l.
Proof.
  split; [reflexivity|]. split; [by vm_compute|]. split; [by vm_compute|].
  eexists. split; [vm_compute; reflexivity|]. split; [reflexivity|]. split.
  - intros [|[|[|i]]] x Hx; try done; injection Hx as <-; by vm_compute.
  - intros H. specialize (H 1%nat _ eq_refl). vm_compute in H. discriminate.
Qed.




(** * Further properties *)

(** ** What the constructor accepts *)

Lemma dict_mapM_Raise_only {A B} (f : string → A → result B)
    (d : gmap string A) (e : exn) :
  (∀ k v e', f k v = Raise e' → e' = e) →
  ∀ e', dict_mapM f d = Raise e' → e' = e.
Proof.
  intros Hf. unfold dict_mapM.
  apply (map_fold_weak_ind (λ r m, ∀ e', r = Raise e' → e' = e)).
  - discriminate.
  - intros i x m r Hi IH e' Hr.
    destruct r as [acc|e0]; simpl in Hr; [|by apply IH].
    destruct (f i x) as [v'|e1] eqn:Hfx; simpl in Hr; [discriminate|].
    injection Hr as <-. by eapply Hf.
Qed.

Lemma dict_mapM_id {A} (f : string → A → result A) (d : gmap string A) :
  (∀ k v, d !! k = Some v → f k v = Ok v) → dict_mapM f d = Ok d.
Proof.
  unfold dict_mapM.
  apply (map_fold_weak_ind (λ r m,
    (∀ k v, m !! k = Some v → f k v = Ok v) → r = Ok m)).
  - done.
  - intros i x m r Hi IH Hall.
    rewrite IH.
    + simpl. by rewrite (Hall i x) by by rewrite lookup_insert_eq.
    + intros k v Hk. apply Hall.
      rewrite lookup_insert_ne; [done|]. intros ->. congruence.
Qed.

Lemma py_assert_Raise b e : py_assert b = Raise e → e = AssertionError.
Proof. destruct b; [discriminate|]. by intros [= <-]. Qed.

Lemma check_condition_Raise ncorr nerr nd v e :
  check_condition ncorr nerr nd v = Raise e → e = AssertionError.
Proof.
  unfold check_condition.
  destruct v as [[w0 l0|l0] [w1 l1|l1] t]; simpl; intros H;
    try (by injection H as <-).
  repeat match type of H with
  | (py_assert ?b ≫= _) = Raise _ =>
      destruct b; simpl in H; [|by injection H as <-]
  | (match ?t with Some _ => _ | None => _ end ≫= _) = Raise _ =>
      destruct t; simpl in H
  end; discriminate.
Qed.

(** X1.  The constructor returns a Sample exactly when both time
    sequences are numpy arrays, the non-decision count is not negative and
    every condition tuple holds two numpy arrays of the lengths of the
    correct and error times, with a third element of length
    [non_decision] if there is one and [non_decision = 0] if there is
    none; whenever it does not return it raises [AssertionError]. *)
Theorem Sample_init_outcome sample_corr sample_err nd kwargs :
  (is_Ok (Sample_init sample_corr sample_err nd kwargs)
   ↔ init_args_ok sample_corr sample_err nd kwargs)
  ∧ ∀ e, Sample_init sample_corr sample_err nd kwargs = Raise e →
         e = AssertionError.
Proof.
  split; [split|].
  - intros [s Hs].
    apply Sample_init_Ok in Hs as (Hc & He & Hnd & _ & _ & _ & Hd).
    do 3 (split; [done|]). intros k v Hk.
    pose proof (dict_mapM_Ok _ _ _ Hd k) as H. rewrite Hk in H.
    destruct H as (v' & Hv' & _). by apply check_condition_Ok in Hv' as [? _].
  - intros (Hc & He & Hnd & Hall). by apply Sample_init_is_Ok.
  - intros e. unfold Sample_init.
    destruct sample_corr as [wc lc|lc]; simpl; [|by intros [= <-]].
    destruct sample_err as [we le|le]; simpl; [|by intros [= <-]].
    case_bool_decide; simpl; [|by intros [= <-]].
    destruct (dict_mapM _ kwargs) as [d|e'] eqn:Hd; simpl; [discriminate|].
    intros [= <-]. eapply dict_mapM_Raise_only; [|exact Hd].
    intros k v e0. apply check_condition_Raise.
Qed.

(** X2.  Building a Sample again from the fields of a constructed Sample
    gives that same Sample. *)
Theorem Sample_init_fields sample_corr sample_err nd kwargs s :
  Sample_init sample_corr sample_err nd kwargs = Ok s →
  Sample_init (corr s) (err s) (non_decision s) (conditions s) = Ok s.
Proof.
  intros H. pose proof (Sample_init_wf _ _ _ _ _ H) as Hwf.
  apply Sample_init_Ok in H as (_ & _ & Hnd & Ec & Ee & En & Hd).
  destruct s as [c e n d]. simpl in *. subst c e n.
  unfold Sample_init. simpl. rewrite bool_decide_eq_true_2 by done. simpl.
  rewrite dict_mapM_id; [done|].
  intros k v Hk.
  destruct (dict_mapM_lookup _ _ _ _ _ Hd Hk) as (v0 & _ & Hv0).
  apply check_condition_Ok in Hv0 as [_ Ev].
  destruct (wf_conditions _ Hwf k v Hk) as [_ _ L0 L1 L2]. simpl in *.
  subst v. unfold check_condition. simpl in *.
  unfold len in *. simpl in *.
  rewrite (bool_decide_eq_true_2 _ L0), (bool_decide_eq_true_2 _ L1). simpl.
  destruct (c2 v0); rewrite (bool_decide_eq_true_2 _ L2); done.
Qed.

Lemma Sample_init_fields_witness :
  ∃ s, sample_with_third = Ok s
       ∧ Sample_init (corr s) (err s) (non_decision s) (conditions s) = Ok s.
Proof.
  eexists. split; [reflexivity|].
  exact (Sample_init_fields (np_asarray [1%Q]) (np_asarray []) 1
    {[ "color" := {| c0 := np_asarray [5%Q]; c1 := np_asarray [];
                     c2 := Some (pylist [7%Q]) |} ]} _ eq_refl).
Defined.

(** ** Probabilities of a Sample with trials *)

Lemma returns_Range01_Ok (x : Q) :
  (0 <= x)%Q → (x <= 1)%Q → returns_Range01 (Ok x) = Ok x.
Proof.
  intros H0 H1. unfold returns_Range01. simpl.
  by rewrite (proj2 (Qle_bool_iff 0 x) H0), (proj2 (Qle_bool_iff x 1) H1).
Qed.

Lemma count_ratio_range (a b : Z) :
  0 ≤ a → a ≤ b → b ≠ 0 →
  (0 <= inject_Z a / inject_Z b)%Q ∧ (inject_Z a / inject_Z b <= 1)%Q.
Proof.
  intros Ha Hab Hb.
  assert (0 < inject_Z b)%Q as Hpos
    by (change 0%Q with (inject_Z 0); rewrite <-Zlt_Qlt; lia).
  split.
  - apply Qle_shift_div_l; [done|]. rewrite Qmult_0_l.
    change 0%Q with (inject_Z 0). rewrite <-Zle_Qle. lia.
  - apply Qle_shift_div_r; [done|]. rewrite Qmult_1_l.
    rewrite <-Zle_Qle. lia.
Qed.

(** A count out of a positive total gives a double between 0 and 1. *)
Lemma py_div_range (a b : Z) :
  0 ≤ a → a ≤ b → b ≠ 0 →
  py_div a b = Ok (round_double (inject_Z a / inject_Z b))
  ∧ (0 <= round_double (inject_Z a / inject_Z b))%Q
  ∧ (round_double (inject_Z a / inject_Z b) <= 1)%Q.
Proof.
  intros Ha Hab Hb. unfold py_div. rewrite decide_False by done.
  split; [done|].
  destruct (count_ratio_range a b Ha Hab Hb) as [H0 H1].
  split; [by apply round_double_nonneg|by apply round_double_le_1].
Qed.

Lemma prob_values s :
  Sample_wf s → Sample_len s ≠ 0 →
  prob_correct s
  = Ok (round_double (inject_Z (Z.of_nat (len (corr s)))
                      / inject_Z (Sample_len s)))
  ∧ prob_error s
    = Ok (round_double (inject_Z (Z.of_nat (len (err s)))
                        / inject_Z (Sample_len s)))
  ∧ prob_undecided s
    = Ok (round_double (inject_Z (non_decision s)
                        / inject_Z (Sample_len s))).
Proof.
  intros Hwf Hlen. pose proof (wf_non_decision s Hwf) as Hnd.
  unfold prob_correct, prob_error, prob_undecided.
  destruct (py_div_range (Z.of_nat (len (corr s))) (Sample_len s))
    as (-> & ? & ?); [unfold Sample_len; lia..|done|].
  destruct (py_div_range (Z.of_nat (len (err s))) (Sample_len s))
    as (-> & ? & ?); [unfold Sample_len; lia..|done|].
  destruct (py_div_range (non_decision s) (Sample_len s))
    as (-> & ? & ?); [unfold Sample_len; lia..|done|].
  by rewrite !returns_Range01_Ok.
Qed.

Lemma inject_Z_Sample_len s :
  (inject_Z (Sample_len s)
   == inject_Z (Z.of_nat (len (corr s))) + inject_Z (Z.of_nat (len (err s)))
      + inject_Z (non_decision s))%Q.
Proof. unfold Sample_len. by rewrite !inject_Z_plus. Qed.

(** The three exact ratios lie between 0 and 1 and sum to 1. *)
Lemma count_ratios s :
  Sample_wf s → Sample_len s ≠ 0 →
  (0 <= inject_Z (Z.of_nat (len (corr s))) / inject_Z (Sample_len s) <= 1)%Q
  ∧ (0 <= inject_Z (Z.of_nat (len (err s))) / inject_Z (Sample_len s)
     <= 1)%Q
  ∧ (0 <= inject_Z (non_decision s) / inject_Z (Sample_len s) <= 1)%Q
  ∧ (inject_Z (Z.of_nat (len (corr s))) / inject_Z (Sample_len s)
     + inject_Z (Z.of_nat (len (err s))) / inject_Z (Sample_len s)
     + inject_Z (non_decision s) / inject_Z (Sample_len s) == 1)%Q.
Proof.
  intros Hwf Hlen. pose proof (wf_non_decision s Hwf) as Hnd.
  split; [|split; [|split]];
    try (apply count_ratio_range; [unfold Sample_len; lia..|done]).
  assert (¬ inject_Z (Sample_len s) == 0)%Q as Hnz.
  { change 0%Q with (inject_Z 0). by rewrite inject_Z_injective. }
  rewrite (inject_Z_Sample_len s) in Hnz |- *. by field.
Qed.

(** X3.  On a valid Sample with at least one trial, and fewer than
    [2 ^ 63] of them (the range of the builtin [len]), [prob_correct],
    [prob_error] and [prob_undecided] return the doubles nearest to the
    three counts divided by the length; each lies between 0 and 1 (their
    [@returns] checks pass), and their sum is 1 up to the three
    roundings, that is within [3 * 2 ^ -54] of 1. *)
Theorem probabilities_sum_near_one s :
  Sample_wf s → Sample_len s ≠ 0 → Sample_len s < 2 ^ 63 →
  ∃ pc pe pu,
    prob_correct s = Ok pc ∧ prob_error s = Ok pe ∧ prob_undecided s = Ok pu
    ∧ pc = round_double (inject_Z (Z.of_nat (len (corr s)))
                         / inject_Z (Sample_len s))
    ∧ pe = round_double (inject_Z (Z.of_nat (len (err s)))
                         / inject_Z (Sample_len s))
    ∧ pu = round_double (inject_Z (non_decision s)
                         / inject_Z (Sample_len s))
    ∧ (0 <= pc <= 1)%Q ∧ (0 <= pe <= 1)%Q ∧ (0 <= pu <= 1)%Q
    ∧ (1 - 3 * pow2 (-54) <= pc + pe + pu)%Q
    ∧ (pc + pe + pu <= 1 + 3 * pow2 (-54))%Q.
Proof.
  intros Hwf Hlen _.
  destruct (prob_values s Hwf Hlen) as (Hc & He & Hu).
  eexists _, _, _. do 3 (split; [eassumption|]).
  do 3 (split; [reflexivity|]).
  destruct (count_ratios s Hwf Hlen) as (Rc & Re & Ru & Hsum).
  set (x := (inject_Z (Z.of_nat (len (corr s))) / inject_Z (Sample_len s))%Q)
    in *.
  set (y := (inject_Z (Z.of_nat (len (err s))) / inject_Z (Sample_len s))%Q)
    in *.
  set (z := (inject_Z (non_decision s) / inject_Z (Sample_len s))%Q) in *.
  destruct (round_double_within x (-1)) as [Xl Xu];
    [lra|change (pow2 (-1 + 1)) with 1%Q; lra|done|].
  destruct (round_double_within y (-1)) as [Yl Yu];
    [lra|change (pow2 (-1 + 1)) with 1%Q; lra|done|].
  destruct (round_double_within z (-1)) as [Zl Zu];
    [lra|change (pow2 (-1 + 1)) with 1%Q; lra|done|].
  change (-1 - 53) with (-54) in *.
  pose proof (round_double_nonneg x (proj1 Rc)).
  pose proof (round_double_nonneg y (proj1 Re)).
  pose proof (round_double_nonneg z (proj1 Ru)).
  pose proof (round_double_le_1 x (proj1 Rc) (proj2 Rc)).
  pose proof (round_double_le_1 y (proj1 Re) (proj2 Re)).
  pose proof (round_double_le_1 z (proj1 Ru) (proj2 Ru)).
  set (e54 := pow2 (-54)) in *.
  repeat split; lra.
Qed.

Lemma probabilities_sum_near_one_witness :
  ∃ pc pe pu,
    prob_correct sample_three_kinds = Ok pc
    ∧ prob_error sample_three_kinds = Ok pe
    ∧ prob_undecided sample_three_kinds = Ok pu
    ∧ (0 <= pc <= 1)%Q ∧ (0 <= pe <= 1)%Q ∧ (0 <= pu <= 1)%Q
    ∧ (1 - 3 * pow2 (-54) <= pc + pe + pu)%Q
    ∧ (pc + pe + pu <= 1 + 3 * pow2 (-54))%Q.
Proof.
  destruct (probabilities_sum_near_one sample_three_kinds
              sample_three_kinds_wf)
    as (pc & pe & pu & Hc & He & Hu & _ & _ & _ & Hrest).
  - discriminate.
  - reflexivity.
  - exists pc, pe, pu. do 3 (split; [assumption|]). exact Hrest.
Defined.

(** The sum need not be 1: with one correct trial, four error trials and
    one undecided trial the three doubles sum to less. *)
Lemma probabilities_sum_below_one :
  ∃ s pc pe pu,
    Sample_init (np_asarray [1%Q]) (np_asarray [1; 2; 3; 4]%Q) 1 ∅ = Ok s
    ∧ prob_correct s = Ok pc ∧ prob_error s = Ok pe
    ∧ prob_undecided s = Ok pu
    ∧ (pc + pe + pu < 1)%Q
    ∧ (round_double (round_double (pc + pe) + pu) < 1)%Q.
Proof.
  eexists _, _, _, _. do 4 (split; [vm_compute; reflexivity|]).
  split; by vm_compute.
Qed.

(** X4.  The forced-choice probabilities split the undecided trials
    evenly: on a valid Sample with at least one trial, and fewer than
    [2 ^ 63] of them (the range of the builtin [len]), they return the
    doubles computed for [prob_correct + prob_undecided / 2] and
    [prob_error + prob_undecided / 2], both between 0 and 1 (the
    [@returns] checks pass), and their sum is within [2 ^ -51] of 1; on a
    Sample of length 0 both raise [ZeroDivisionError]. *)
Theorem forced_probabilities s :
  Sample_wf s →
  (Sample_len s = 0 →
   prob_correct_forced s = Raise ZeroDivisionError
   ∧ prob_error_forced s = Raise ZeroDivisionError)
  ∧ (Sample_len s ≠ 0 → Sample_len s < 2 ^ 63 →
     ∃ pc pe pu fc fe,
       prob_correct s = Ok pc ∧ prob_error s = Ok pe
       ∧ prob_undecided s = Ok pu
       ∧ prob_correct_forced s = Ok fc ∧ prob_error_forced s = Ok fe
       ∧ fc = round_double (pc + round_double (pu / 2))
       ∧ fe = round_double (pe + round_double (pu / 2))
       ∧ (0 <= fc <= 1)%Q ∧ (0 <= fe <= 1)%Q
       ∧ (1 - pow2 (-51) <= fc + fe)%Q ∧ (fc + fe <= 1 + pow2 (-51))%Q).
Proof.
  intros Hwf. split.
  - intros Hlen. unfold prob_correct_forced, prob_error_forced.
    destruct (prob_of_empty s Hlen) as (-> & -> & _). done.
  - intros Hlen _.
    destruct (prob_values s Hwf Hlen) as (Hc & He & Hu).
    destruct (count_ratios s Hwf Hlen) as (Rc & Re & Ru & Hsum).
    set (x := (inject_Z (Z.of_nat (len (corr s)))
               / inject_Z (Sample_len s))%Q) in *.
    set (y := (inject_Z (Z.of_nat (len (err s)))
               / inject_Z (Sample_len s))%Q) in *.
    set (z := (inject_Z (non_decision s) / inject_Z (Sample_len s))%Q) in *.
    destruct (forced_bound x z) as (C0 & C1 & Cl & Cu); [lra..|].
    destruct (forced_bound y z) as (E0 & E1 & El & Eu); [lra..|].
    pose proof (pow2_succ (-52)) as E51. change (-52 + 1) with (-51) in E51.
    set (e52 := pow2 (-52)) in *. set (e51 := pow2 (-51)) in *.
    clearbody e51 e52.
    exists (round_double x), (round_double y), (round_double z),
      (round_double (round_double x + round_double (round_double z / 2))),
      (round_double (round_double y + round_double (round_double z / 2))).
    do 3 (split; [assumption|]).
    unfold prob_correct_forced, prob_error_forced.
    rewrite Hc, He, Hu. cbn [mbind result_bind].
    rewrite !returns_Range01_Ok by assumption.
    do 4 (split; [reflexivity|]).
    split; [split; assumption|]. split; [split; assumption|].
    assert (z / 2 + z / 2 == z)%Q as Hhalf by field.
    set (h := (z / 2)%Q) in *.
    split; lra.
Qed.

(** With two correct trials, one error trial and one undecided trial
    the forced probabilities are 0.625 and 0.375. *)
Lemma forced_probabilities_witness :
  ∃ fc fe, prob_correct_forced sample_three_kinds = Ok fc
           ∧ prob_error_forced sample_three_kinds = Ok fe
           ∧ (0 <= fc <= 1)%Q ∧ (0 <= fe <= 1)%Q
           ∧ (fc == 5 # 8)%Q ∧ (fe == 3 # 8)%Q.
Proof.
  destruct (proj2 (forced_probabilities sample_three_kinds
                     sample_three_kinds_wf))
    as (pc & pe & pu & fc & fe & Hc & He & Hu & Hfc & Hfe & Ec & Ee
        & Rc & Re & _).
  - discriminate.
  - reflexivity.
  - exists fc, fe. do 4 (split; [assumption|]).
    vm_compute in Hc, He, Hu. injection Hc as <-. injection He as <-.
    injection Hu as <-. subst fc fe. split; by vm_compute.
Defined.

(** ** The observed values of a condition *)

#[global] Instance Q_le_total : Total Q_le.
Proof.
  intros a b. unfold Q_le. rewrite !Qle_bool_iff.
  destruct (Qlt_le_dec a b) as [H|H]; [left; by apply Qlt_le_weak|by right].
Qed.

#[global] Instance Q_le_trans : Transitive Q_le.
Proof.
  intros a b c. unfold Q_le. rewrite !Qle_bool_iff. apply Qle_trans.
Qed.

Lemma distinctQ_Permutation l1 l2 : l1 ≡ₚ l2 → distinctQ l1 → distinctQ l2.
Proof.
  induction 1 as [|x l1 l2 Hp IH|x y l|l1 l2 l3 _ IH1 _ IH2]; simpl.
  - done.
  - intros [Hx Hd]. split; [by rewrite <-Hp|by apply IH].
  - intros [Hy [Hx Hd]]. apply Forall_cons in Hy as [Hyx Hy].
    repeat split; try done. constructor; [|done].
    intros H. apply Hyx. by symmetry.
  - auto.
Qed.

Lemma distinctQ_filter (P : Q → Prop) `{∀ x, Decision (P x)} l :
  distinctQ l → distinctQ (filter P l).
Proof.
  induction l as [|x l IH]; simpl; [done|]. intros [Hx Hd].
  rewrite filter_cons. destruct (decide (P x)); simpl; [|by apply IH].
  split; [|by apply IH]. apply Forall_forall. intros y Hy.
  apply list_elem_of_filter in Hy as [_ Hy].
  by apply (proj1 (Forall_forall _ _) Hx).
Qed.

Lemma py_set_distinct l : distinctQ (py_set l).
Proof.
  induction l as [|x l IH]; simpl; [done|]. split.
  - apply Forall_forall. intros y Hy.
    apply list_elem_of_filter in Hy as [Hne _].
    intros Heq. apply Hne, Is_true_true, Qeq_bool_iff, Heq.
  - by apply distinctQ_filter.
Qed.

(** Every value of [py_set l] comes from [l], and every value of [l] has
    an equal representative in [py_set l]. *)
Lemma py_set_subset l x : x ∈ py_set l → x ∈ l.
Proof.
  revert x. induction l as [|y l IH]; simpl; intros x Hx; [done|].
  apply elem_of_cons in Hx as [->|Hx]; [by left|].
  apply list_elem_of_filter in Hx as [_ Hx]. right. by apply IH.
Qed.

Lemma py_set_represents l x : x ∈ l → ∃ y, y ∈ py_set l ∧ (y == x)%Q.
Proof.
  induction l as [|z l IH]; simpl; intros Hx; [by apply elem_of_nil in Hx|].
  apply elem_of_cons in Hx as [->|Hx].
  - exists z. split; [by left|reflexivity].
  - destruct (IH Hx) as (y & Hy & Hyx).
    destruct (Qeq_bool z y) eqn:Hzy.
    + exists z. split; [by left|].
      apply Qeq_bool_iff in Hzy. by rewrite Hzy.
    + exists y. split; [|done]. right.
      apply list_elem_of_filter. split; [|done].
      rewrite Hzy. by intros [].
Qed.

Lemma sorted_distinct_increasing l :
  StronglySorted Q_le l → distinctQ l → StronglySorted Qlt l.
Proof.
  induction 1 as [|x l Hs IH Hx]; simpl; [constructor|].
  intros [Hne Hd]. constructor; [by apply IH|].
  apply Forall_forall. intros y Hy.
  apply (proj1 (Forall_forall _ _) Hx) in Hy as Hle.
  apply (proj1 (Forall_forall _ _) Hne) in Hy as Hney.
  apply Qle_bool_iff in Hle.
  apply Qle_lt_or_eq in Hle as [?|?]; [done|contradiction].
Qed.

Lemma py_sorted_py_set_increasing l : StronglySorted Qlt (py_sorted (py_set l)).
Proof.
  apply sorted_distinct_increasing.
  - apply StronglySorted_merge_sort; apply _.
  - eapply distinctQ_Permutation; [|apply py_set_distinct].
    symmetry. apply merge_sort_Permutation.
Qed.

Lemma condition_names_lookup s k :
  k ∈ condition_names s ↔ is_Some (conditions s !! k).
Proof. apply elem_of_keys. Qed.

(** X5.  [condition_values] is refused with an entry-condition error
    exactly when the name is not a condition of the Sample (the dictionary
    lookup never gets to raise [KeyError]); for a condition it returns. *)
Theorem condition_values_unknown s cond :
  (conditions s !! cond = None →
   condition_values s cond = Raise EntryConditionsError)
  ∧ (is_Some (conditions s !! cond) → is_Ok (condition_values s cond))
  ∧ condition_values s cond ≠ Raise KeyError.
Proof.
  unfold condition_values. repeat split.
  - intros Hk. rewrite bool_decide_eq_false_2; [done|].
    rewrite condition_names_lookup, Hk. by intros [].
  - intros [v Hv]. rewrite bool_decide_eq_true_2
      by (rewrite condition_names_lookup; eauto).
    unfold lookup_key. rewrite Hv. apply is_Ok_Ok.
  - case_bool_decide as Hin; [|done].
    apply condition_names_lookup in Hin as [v Hv].
    unfold lookup_key. by rewrite Hv.
Qed.

Lemma condition_values_unknown_witness :
  ∃ s, sample_with_condition = Ok s
       ∧ condition_values s "size" = Raise EntryConditionsError.
Proof.
  eexists. split; [reflexivity|].
  refine (proj1 (condition_values_unknown _ "size") _). reflexivity.
Defined.

(** X6.  For a condition of the Sample, [condition_values] returns its
    values in strictly increasing order, hence without repetition: every
    returned value occurs among the correct or the error values of the
    condition, and every such value is equal to a returned one.  The
    non-decision values play no part. *)
Theorem condition_values_spec s cond v :
  conditions s !! cond = Some v →
  ∃ l, condition_values s cond = Ok l
       ∧ StronglySorted Qlt l
       ∧ (∀ x, x ∈ l → x ∈ data (c0 v) ∨ x ∈ data (c1 v))
       ∧ (∀ x, x ∈ data (c0 v) ∨ x ∈ data (c1 v) →
               ∃ y, y ∈ l ∧ (y == x)%Q).
Proof.
  intros Hv. unfold condition_values.
  rewrite bool_decide_eq_true_2 by (rewrite condition_names_lookup; eauto).
  unfold lookup_key. rewrite Hv. simpl. eexists. split; [done|].
  unfold observed_values. split; [apply py_sorted_py_set_increasing|].
  unfold py_sorted. split.
  - intros x Hx. rewrite merge_sort_Permutation in Hx.
    apply py_set_subset, elem_of_app in Hx. done.
  - intros x Hx. apply elem_of_app, py_set_represents in Hx as (y & Hy & Hyx).
    exists y. by rewrite merge_sort_Permutation.
Qed.

Lemma condition_values_spec_witness :
  ∃ l, condition_values sample_three_kinds "color" = Ok l
       ∧ StronglySorted Qlt l
       ∧ ∃ y, y ∈ l ∧ (y == 6)%Q.
Proof.
  destruct (condition_values_spec sample_three_kinds "color" _ eq_refl)
    as (l & Hl & Hs & _ & Hin).
  exists l. split; [exact Hl|]. split; [exact Hs|].
  apply Hin. left. simpl. apply elem_of_cons. right. by left.
Defined.

(** ** One step of the iteration *)



(** ** When [subset] returns *)

Lemma filter_step_unknown s m kv :
  conditions s !! kv.1 = None → filter_step s m kv = Raise KeyError.
Proof.
  intros Hk. unfold filter_step, update_masks, lookup_key. rewrite Hk.
  by destruct (has_call kv.2), (has_contains kv.2).
Qed.

Lemma filter_loop_app s m kw1 kw2 :
  filter_loop s m (kw1 ++ kw2)
  = (m' ← filter_loop s m kw1; filter_loop s m' kw2).
Proof.
  revert m. induction kw1 as [|kv kw1 IH]; intros m; simpl; [done|].
  destruct (filter_step s m kv); simpl; [apply IH|done].
Qed.

Lemma Sample_subset_Ok_inv s kwargs r :
  Sample_subset s kwargs = Ok r → conditions s = ∅ ∧ kwargs = [].
Proof.
  intros Hr.
  destruct (decide (conditions s = ∅)) as [Hd|Hd].
  - split; [done|]. destruct kwargs as [|kv rest]; [done|].
    unfold Sample_subset, subset_masks in Hr. simpl in Hr.
    rewrite filter_step_unknown in Hr; [done|].
    by rewrite Hd, lookup_empty.
  - destruct (Sample_subset_never_returns s kwargs Hd). by exists r.
Qed.

(** X8.  [subset] returns a Sample only when the Sample has no condition
    and no filter is given: with a condition the constructor rejects the
    filtered lists, and without conditions every filter names a missing
    key. *)
Theorem subset_returns_only_trivially s kwargs r :
  Sample_subset s kwargs = Ok r → conditions s = ∅ ∧ kwargs = [].
Proof. apply Sample_subset_Ok_inv. Qed.

Lemma subset_returns_only_trivially_witness :
  ∃ s, Sample_init (np_asarray [1 # 10; 2 # 10]%Q) (np_asarray [3 # 10]%Q)
                   0 ∅ = Ok s
       ∧ Sample_subset s [] = Ok s
       ∧ conditions s = ∅.
Proof.
  eexists. split; [reflexivity|]. split; [reflexivity|].
  refine (proj1 (subset_returns_only_trivially _ [] _ _)). reflexivity.
Defined.

(** X9.  A filter on a name that is not a condition of the Sample makes
    [subset] raise [KeyError], the filters before it being applied
    first. *)
Theorem subset_unknown_name s known k v rest :
  Sample_wf s →
  Forall (λ kv, is_Some (conditions s !! kv.1)) known →
  conditions s !! k = None →
  Sample_subset s (known ++ (k, v) :: rest) = Raise KeyError.
Proof.
  intros Hwf Hknown Hk. unfold Sample_subset, subset_masks.
  rewrite filter_loop_app.
  destruct (filter_loop_wf s known (initial_masks s) Hwf
              (initial_masks_wf s) Hknown) as (m' & -> & _).
  simpl. by rewrite filter_step_unknown.
Qed.

Lemma subset_unknown_name_witness :
  Sample_subset sample_three_kinds
    ([("color", PyScalar 5)] ++ ("size", PyScalar 1) :: [])
  = Raise KeyError.
Proof.
  apply subset_unknown_name.
  - exact sample_three_kinds_wf.
  - constructor; [|constructor]. by eexists.
  - reflexivity.
Defined.

(** ** What [condition_combinations] can return *)

Lemma keys_empty {A} : keys (∅ : gmap string A) = [].
Proof. unfold keys. by rewrite map_to_list_empty. Qed.

(** X10.  Whatever the Sample and [required_conditions], when
    [condition_combinations] returns, it returns the single empty
    combination: it never returns a combination that names a condition. *)
Theorem condition_combinations_only_empty s required_conditions l :
  condition_combinations s required_conditions = Ok l → l = [∅].
Proof.
  unfold condition_combinations.
  fold (kept_names s required_conditions). intros H.
  inv_bind H. inv_bind H.
  destruct (product a) as [|p ps] eqn:Hprod.
  { simpl in Ha0. injection Ha0 as <-. simpl in H. by injection H as <-. }
  simpl in Ha0. inv_bind Ha0. unfold combination_step in Ha1.
  inv_bind Ha1. apply Sample_subset_Ok_inv in Ha2 as [Hd _].
  assert (kept_names s required_conditions = []) as Hnames.
  { unfold kept_names, condition_names. rewrite Hd, keys_empty.
    by destruct required_conditions. }
  rewrite Hnames in *. simpl in Ha. injection Ha as <-.
  simpl in Hprod. injection Hprod as <- <-.
  simpl in *. destruct (decide (Sample_len a2 ≠ 0));
    injection Ha1 as <-; injection Ha0 as <-; simpl in H;
    by injection H as <-.
Qed.

Lemma condition_combinations_only_empty_witness :
  ∃ s, Sample_init (np_asarray [1 # 10; 2 # 10]%Q) (np_asarray [3 # 10]%Q)
                   0 ∅ = Ok s
       ∧ condition_combinations s None = Ok [∅].
Proof.
  eexists. split; [reflexivity|].
  assert (∃ l, condition_combinations
    {| corr := ndarray false [1 # 10; 2 # 10]%Q;
       err := ndarray false [3 # 10]%Q;
       non_decision := 0; conditions := ∅ |} None = Ok l) as [l Hl]
    by (eexists; reflexivity).
  rewrite Hl. f_equal.
  exact (condition_combinations_only_empty _ None l Hl).
Defined.

(** ** The table constructor under its entry conditions *)


Lemma len_pt l : len (pt l) = length l.
Proof.
  unfold pt, len. simpl. destruct (forallb _ l); simpl; [|done].
  by rewrite length_map.
Qed.

Lemma in_NDArray_pt l : in_NDArray (pt l) = true.
Proof. unfold pt. simpl. by destruct (forallb _ l). Qed.









Section from_numpy_array.
Variables (d : table) (column_names : list string).
Hypothesis Hreq : from_numpy_array_requires d column_names = true.



End from_numpy_array.





(** X13.  On numbers that fit a 64-bit integer, the type normalisation
    [pt] of [from_numpy_array] changes how the numbers are stored, not
    their values or their number: the result is a numpy array equal to
    the input element by element. *)
Theorem pt_keeps_values (l : list Q) :
  Forall fits_int64 l →
  in_NDArray (pt l) = true ∧ len (pt l) = length l
  ∧ Forall2 Qeq (data (pt l)) l.
Proof.
  intros Hfit.
  split; [apply in_NDArray_pt|]. split; [apply len_pt|by apply pt_values].
Qed.

Lemma pt_keeps_values_witness :
  in_NDArray (pt [1; 3 # 1; 2]%Q) = true
  ∧ len (pt [1; 3 # 1; 2]%Q) = 3%nat
  ∧ Forall2 Qeq (data (pt [1; 3 # 1; 2]%Q)) [1; 3 # 1; 2]%Q.
Proof.
  apply (pt_keeps_values [1; 3 # 1; 2]%Q).
  assert (∀ v, (- 2 ^ 63 ≤ py_int v) → (py_int v < 2 ^ 63) → fits_int64 v)
    as Hfit by (intros v; by split).
  constructor; [by apply Hfit|].
  constructor; [by apply Hfit|].
  constructor; [by apply Hfit|]. constructor.
Defined.

(** ** Addition beyond equal lengths *)




Lemma Sample_add_Ok_inv s o r :
  Sample_add s o = Ok r →
  ∃ c e, py_add (corr s) (corr o) = Ok c ∧ py_add (err s) (err o) = Ok e
         ∧ corr r = ndarray false (data c) ∧ err r = ndarray false (data e)
         ∧ non_decision r = non_decision s + non_decision o
         ∧ dom (conditions r) = dom (conditions s).
Proof.
  unfold Sample_add. intros H. inv_assert H.
  inv_bind H. inv_bind H. inv_bind H.
  apply Sample_init_Ok in H as (_ & _ & _ & Ec & Ee & En & Hd).
  exists a, a0. do 5 (split; [done|]).
  by rewrite (dict_mapM_dom _ _ _ Hd), (dict_mapM_dom _ _ _ Ha1).
Qed.

(** X15.  [__add__] adds trial by trial, it does not merge two data
    sets: when the operands have the same numbers of correct and of error
    trials, the sum has those same numbers of timed trials and the sum of
    the two non-decision counts, so its length is the length of one
    operand plus the non-decision count of the other; its condition names
    are those of the operands. *)
Theorem Sample_add_length s o r :
  Sample_wf s → Sample_wf o →
  len (corr s) = len (corr o) → len (err s) = len (err o) →
  Sample_add s o = Ok r →
  len (corr r) = len (corr s) ∧ len (err r) = len (err s)
  ∧ non_decision r = non_decision s + non_decision o
  ∧ Sample_len r = Sample_len s + non_decision o
  ∧ dom (conditions r) = dom (conditions s).
Proof.
  intros Hs Ho Lc Le Hr.
  apply Sample_add_Ok_inv in Hr as (c & e & Hc & He & Ec & Ee & En & Hd).
  rewrite py_add_arrays_same_length in Hc
    by (try apply wf_corr_array; done).
  rewrite py_add_arrays_same_length in He
    by (try apply wf_err_array; done).
  injection Hc as <-. injection He as <-.
  assert (len (corr r) = len (corr s)) as Hlc.
  { rewrite Ec. unfold len in *. simpl. rewrite length_zip_with. lia. }
  assert (len (err r) = len (err s)) as Hle.
  { rewrite Ee. unfold len in *. simpl. rewrite length_zip_with. lia. }
  do 3 (split; [done|]). split; [|done].
  unfold Sample_len. rewrite Hlc, Hle, En. lia.
Qed.

Lemma Sample_add_length_witness :
  ∃ r, Sample_add sample_three_kinds sample_three_kinds = Ok r
       ∧ Sample_len sample_three_kinds = 4 ∧ Sample_len r = 5.
Proof.
  assert (∃ r, Sample_add sample_three_kinds sample_three_kinds = Ok r)
    as [r Hr] by (eexists; reflexivity).
  exists r. split; [exact Hr|]. split; [reflexivity|].
  exact (proj1 (proj2 (proj2 (proj2
    (Sample_add_length sample_three_kinds sample_three_kinds r
       sample_three_kinds_wf sample_three_kinds_wf eq_refl eq_refl Hr))))).
Defined.

(** ** The points of the time domain *)




(** ** The cases in which subsetting and iteration work *)

(** X17.  On a Sample constructed without conditions, [subset()] returns
    that very Sample and [condition_combinations] returns the single
    empty combination. *)
Theorem no_conditions_round_trip sample_corr sample_err nd s req :
  Sample_init sample_corr sample_err nd ∅ = Ok s →
  Sample_subset s [] = Ok s ∧ condition_combinations s req = Ok [∅].
Proof.
  intros H. split.
  - by eapply subset_no_filter_no_conditions.
  - by eapply condition_combinations_no_conditions.
Qed.

Lemma no_conditions_round_trip_witness :
  ∃ s, Sample_init (np_asarray [1 # 10; 2 # 10]%Q) (np_asarray [3 # 10]%Q)
                   5 ∅ = Ok s
       ∧ Sample_subset s [] = Ok s.
Proof.
  eexists. split; [reflexivity|].
  exact (proj1 (no_conditions_round_trip
                  (np_asarray [1 # 10; 2 # 10]%Q) (np_asarray [3 # 10]%Q)
                  5 _ None eq_refl)).
Defined.

(** X18.  When the chosen partition is the whole Sample (the other
    partition is empty and there is no non-decision trial),
    [items(correct)] produces the times of the partition in order, one
    pair per trial, and then ends with [StopIteration]; the iterator then
    stays exhausted. *)
Theorem items_of_whole_sample s correct fuel :
  Sample_wf s → Z.of_nat (len (partition s correct)) = Sample_len s →
  (len (partition s correct) < fuel)%nat →
  (∃ l, exhaust fuel (Sample_items s correct) = Some (l, None)
        ∧ l.*1 = data (partition s correct))
  ∧ Sample_Iter_next (iter_at s (len (partition s correct)) correct)
    = (iter_at s (len (partition s correct)) correct, Raise StopIteration).
Proof.
  intros Hwf Heq Hfuel. split.
  - by apply items_of_sole_partition.
  - rewrite next_at_end. by rewrite decide_True.
Qed.

Lemma items_of_whole_sample_witness :
  ∃ s l, Sample_init (np_asarray [1 # 10; 2 # 10; 3 # 10]%Q)
                     (np_asarray []) 0 ∅ = Ok s
         ∧ exhaust 10 (Sample_items s true) = Some (l, None)
         ∧ l.*1 = [1 # 10; 2 # 10; 3 # 10]%Q.
Proof.
  eexists.
  destruct (items_of_whole_sample
              {| corr := ndarray false [1 # 10; 2 # 10; 3 # 10]%Q;
                 err := ndarray false [];
                 non_decision := 0; conditions := ∅ |} true 10)
    as [(l & Hl & Hd) _].
  - exact (Sample_init_wf (np_asarray [1 # 10; 2 # 10; 3 # 10]%Q)
             (np_asarray []) 0 ∅ _ eq_refl).
  - reflexivity.
  - unfold partition, len. simpl. lia.
  - exists l. split; [reflexivity|]. split; [exact Hl | exact Hd].
Defined.

(** ** A rejected constructor call *)

(** A condition given as a pair while there is a non-decision trial. *)
Lemma Sample_init_outcome_witness :
  ∃ e, Sample_init (np_asarray [1%Q]) (np_asarray []) 1
         {[ "color" := {| c0 := np_asarray [5%Q]; c1 := np_asarray [];
                          c2 := None |} ]} = Raise e
       ∧ e = AssertionError.
Proof.
  eexists. split; [reflexivity|].
  refine (proj2 (Sample_init_outcome (np_asarray [1%Q]) (np_asarray []) 1
    {[ "color" := {| c0 := np_asarray [5%Q]; c1 := np_asarray [];
                     c2 := None |} ]}) _ _).
  reflexivity.
Defined.
